(** * The paid [/run] endpoint of the marketplace service template

    A shallow embedding of [src/service.ts] (the [/run] handler: wallet
    check, payment extraction, on-chain verification, URL validation with
    the private-network block list, proxied fetch, response shaping)
    together with models of the payment collaborators the handler imports
    from [./payment] (replay guard, chain verifier, payment instructions).

    Conventions.
    - A JavaScript string is a [string]; one character of the model stands
      for one UTF-16 code unit, so [String.length] is [.length] and
      [substring] is [.substring].
    - A JavaScript number is a rational [Q]; the handler only compares
      lengths and copies numbers around.
    - Values whose TypeScript type is declared outside [service.ts] are
      carried as [JsValue].
    - The collaborators ([extractPayment], [verifyPayment], [getProxy],
      [proxyFetch], the platform's [URL] constructor) are parameters of the
      handler; each call of an effectful one is recorded in a trace. *)

From Stdlib Require Import QArith Lqa Ascii Floats.SpecFloat.
From stdpp Require Import gmap strings list.

Local Open Scope string_scope.
Local Set Warnings "-register-all,-abstract-large-number,-clear-no-such-hyp".

(** ** JavaScript values and strings *)

Inductive JsValue : Type :=
| JUndefined
| JNull
| JBool (b : bool)
| JNumber (q : Q)
| JString (s : string)
| JArray (items : list JsValue)
| JObject (fields : list (string * JsValue)).

Definition is_undefined (v : JsValue) : bool :=
  match v with JUndefined => true | _ => false end.

(** The property names of an object literal, in source order. *)
Definition object_keys (v : JsValue) : list string :=
  match v with
  | JObject fields => fields.*1
  | _ => []
  end.

(** The property names that survive [JSON.stringify]: a property whose
    value is [undefined] is left out of the serialised object. *)
Definition wire_keys (v : JsValue) : list string :=
  match v with
  | JObject fields =>
      (filter (fun kv : string * JsValue => is_undefined kv.2 = false) fields).*1
  | _ => []
  end.

Definition get_field (k : string) (v : JsValue) : option JsValue :=
  match v with
  | JObject fields => snd <$> List.find (fun kv => String.eqb k (fst kv)) fields
  | _ => None
  end.

Module JsString.

(** [s.startsWith(p)] *)
Fixpoint startsWith (s p : string) {struct p} : bool :=
  match p with
  | EmptyString => true
  | String a p' =>
      match s with
      | EmptyString => false
      | String b s' => Ascii.eqb a b && startsWith s' p'
      end
  end.

(** [s.endsWith(p)] *)
Definition endsWith (s p : string) : bool :=
  (String.length p <=? String.length s)%nat &&
  String.eqb (String.substring (String.length s - String.length p)
                               (String.length p) s) p.

Definition lower_ascii (c : Ascii.ascii) : Ascii.ascii :=
  let n := Ascii.nat_of_ascii c in
  if ((65 <=? n) && (n <=? 90))%nat then Ascii.ascii_of_nat (n + 32) else c.

(** [s.toLowerCase()] on the ASCII range, which is all a serialised URL
    host name contains. *)
Fixpoint toLowerCase (s : string) : string :=
  match s with
  | EmptyString => EmptyString
  | String c rest => String (lower_ascii c) (toLowerCase rest)
  end.

(** [arr.includes(x)] for an array of strings *)
Definition includes (arr : list string) (x : string) : bool :=
  existsb (String.eqb x) arr.

(** truthiness of a string: only the empty string is falsy *)
Definition truthy (s : string) : bool :=
  match s with EmptyString => false | _ => true end.

End JsString.

(** ** Data of the handler *)

(** Modelled from the spec: [Network] is declared in [payment.ts], which is
    absent; the data model has [Network ∈ {solana, base}]. *)
Inductive Network : Type := solana | base.

Definition network_name (n : Network) : string :=
  match n with solana => "solana" | base => "base" end.

(** The payment claim returned by [extractPayment]; the handler reads
    [payment.txHash] and [payment.network]. *)
Record Payment : Type := mkPayment {
  txHash : string;
  network : Network;
}.

(** The result of [verifyPayment]; the handler reads [verification.valid],
    [verification.error] and [verification.amount]. *)
Record Verification : Type := mkVerification {
  valid : bool;
  error : JsValue;
  amount : JsValue;
}.

(** What [new URL(url)] exposes to the handler. *)
Record URL : Type := mkURL {
  protocol : string;
  hostname : string;
}.

(** A thrown value, of which the handler reads [err.message]. *)
Record Exn : Type := mkExn { message : JsValue }.

(** [getProxy()] returns the proxy configuration; the handler reads
    [proxy.country]. *)
Record ProxyConfig : Type := mkProxyConfig { country : JsValue }.

(** The response of [proxyFetch]: its status and the outcome of
    [await response.text()], which may reject. *)
Record FetchResponse : Type := mkFetchResponse {
  fr_status : Z;
  fr_text : Exn + string;
}.

(** The request context [c]: the query string and the request headers. *)
Record Ctx : Type := mkCtx {
  req_query : string -> option string;
  req_header : string -> option string;
}.

(** The HTTP response produced by [c.json(object, status)]: the status, the
    headers set through [c.header] and the object to serialise. *)
Record Response : Type := mkResponse {
  status : nat;
  headers : list (string * string);
  body : JsValue;
}.

(** Calls to the effectful collaborators, in the order they are made. *)
Inductive Event : Type :=
| EvVerifyPayment (p : Payment) (recipient : string) (price : Q)
| EvGetProxy
| EvProxyFetch (url : string)
| EvReadBody.

Definition is_fetch (e : Event) : bool :=
  match e with EvProxyFetch _ => true | _ => false end.

Definition is_verify (e : Event) : bool :=
  match e with EvVerifyPayment _ _ _ => true | _ => false end.

(** ** The platform's [Headers]

    Hono's [c.header(name, value)] stores the header with [Headers.set].
    That method first normalizes the value, removing leading and trailing
    HTTP whitespace, and then throws a [TypeError] unless the result is a
    header value: no NUL, no line feed and no carriage return in it. The
    characters of the model are bytes, so the conversion of the value to a
    byte string cannot fail here; the two names the handler passes are
    literal tokens, so the check of the name is left out. *)

Module Headers.

Definition code_in (codes : list nat) (c : Ascii.ascii) : bool :=
  existsb (Nat.eqb (Ascii.nat_of_ascii c)) codes.

(** HTTP whitespace: tab, line feed, carriage return, space. *)
Definition whitespace : Ascii.ascii -> bool := code_in [9; 10; 13; 32]%nat.

(** What no header value may hold: NUL, line feed, carriage return. *)
Definition forbidden : Ascii.ascii -> bool := code_in [0; 10; 13]%nat.

Fixpoint strip_leading (s : string) : string :=
  match s with
  | EmptyString => EmptyString
  | String c rest => if whitespace c then strip_leading rest else s
  end.

Fixpoint strip_trailing (s : string) : string :=
  match s with
  | EmptyString => EmptyString
  | String c rest =>
      match strip_trailing rest with
      | EmptyString => if whitespace c then EmptyString else String c EmptyString
      | kept => String c kept
      end
  end.

(** The value as [Headers.set] stores it. *)
Definition normalize (value : string) : string :=
  strip_trailing (strip_leading value).

Fixpoint clean (s : string) : bool :=
  match s with
  | EmptyString => true
  | String c rest => negb (forbidden c) && clean rest
  end.

(** [Headers.set] takes the value: its normal form is a header value. *)
Definition accepts (value : string) : bool := clean (normalize value).

(** The string is a header value as it stands: nothing to strip and
    nothing forbidden in it. A value read from a request header is one. *)
Definition is_value (value : string) : bool :=
  String.eqb (normalize value) value && clean value.

End Headers.

(** ** A state and exception monad for the handler *)

Section Monad.

(** [St] is the process-wide state of the collaborators (consumed
    transactions, the network). *)
Context {St : Type}.

Record Sys : Type := mkSys {
  store : St;
  trace : list Event;
  resHeaders : list (string * string);
}.

Definition M (A : Type) : Type := Sys -> (Exn + A) * Sys.

Definition ret {A} (a : A) : M A := fun s => (inr a, s).

Definition bind {A B} (m : M A) (k : A -> M B) : M B :=
  fun s =>
    match m s with
    | (inl e, s') => (inl e, s')
    | (inr a, s') => k a s'
    end.

Definition throw {A} (e : Exn) : M A := fun s => (inl e, s).

(** [try { m } catch (err) { h err }]: the effects of [m] up to the throw
    are kept. *)
Definition try_catch {A} (m : M A) (h : Exn -> M A) : M A :=
  fun s =>
    match m s with
    | (inl e, s') => h e s'
    | (inr a, s') => (inr a, s')
    end.

(** Call a collaborator and record the call. *)
Definition call {A} (ev : Event) (f : St -> (Exn + A) * St) : M A :=
  fun s =>
    let '(r, st') := f (store s) in
    (r, {| store := st'; trace := trace s ++ [ev]; resHeaders := resHeaders s |}).

(** Record an [await] that touches no process state. *)
Definition await {A} (ev : Event) (r : Exn + A) : M A :=
  call ev (fun st => (r, st)).

(** [c.header(name, value)]: set (replace) a response header, through
    [Headers.set]. The value is stored in normal form; when that is not a
    header value the call throws [refused name value], the platform's
    [TypeError], and no header is changed. *)
Definition c_header (refused : string -> string -> Exn) (name value : string)
    : M unit :=
  fun s =>
    if Headers.accepts value then
      (inr tt,
       {| store := store s; trace := trace s;
          resHeaders :=
            filter (fun kv : string * string => kv.1 ≠ name) (resHeaders s)
              ++ [(name, Headers.normalize value)] |})
    else (inl (refused name value), s).

(** [c.json(object, status)] *)
Definition c_json (object : JsValue) (code : nat) : M Response :=
  fun s =>
    (inr {| status := code; headers := resHeaders s; body := object |}, s).

End Monad.

Arguments Sys St : clear implicits.
Arguments M St A : clear implicits.

Declare Scope handler_scope.
Delimit Scope handler_scope with handler.
Notation "x <- m ;; k" := (bind m (fun x => k))
  (at level 100, m at next level, right associativity) : handler_scope.
Notation "m ;;; k" := (bind m (fun _ => k))
  (at level 100, right associativity) : handler_scope.

(** ** [src/service.ts] *)

Module Service.

Local Open Scope handler_scope.

Definition SERVICE_NAME : string := "web-scraper".
Definition PRICE_USDC : Q := 5 # 1000.
Definition DESCRIPTION : string :=
  "Fetch any webpage through a real 4G/5G mobile IP. Returns clean text content.".

(** The one-character string holding a double quote. *)
Definition dquote : string := String (Ascii.ascii_of_nat 34) EmptyString.

Definition OUTPUT_SCHEMA : JsValue :=
  JObject
    [ ("input", JObject [ ("url", JString "string — URL to fetch (required)") ]);
      ("output", JObject
         [ ("url", JString "string — the URL that was fetched");
           ("status", JString "number — HTTP status code from the target");
           ("text", JString "string — page text content (max 50KB)");
           ("contentLength", JString "number — original content length in bytes");
           ("proxy", JString ("{ country: string, type: " ++ dquote ++ "mobile"
                               ++ dquote ++ " }")) ]) ].

(** [!v] for a value that is a string or [undefined]. *)
Definition not_ (v : option string) : bool :=
  match v with
  | None => true
  | Some s => negb (JsString.truthy s)
  end.

(** The condition of the private-network [if], on the lower-cased host. *)
Definition private_host (host : string) : bool :=
  String.eqb host "localhost" ||
  JsString.startsWith host "127." ||
  JsString.startsWith host "10." ||
  JsString.startsWith host "192.168." ||
  JsString.startsWith host "172." ||
  String.eqb host "169.254.169.254" ||
  JsString.endsWith host ".local" ||
  JsString.endsWith host ".internal".

Section Handler.

Context {St : Type}.

(** [process.env] *)
Variable env : string -> option string.
(** The imports from [./payment]. *)
Variable extractPayment : Ctx -> option Payment.
Variable verifyPayment :
  Payment -> string -> Q -> St -> (Exn + Verification) * St.
Variable build402Response :
  string -> string -> Q -> string -> JsValue -> JsValue.
(** The imports from [./proxy]. *)
Variable getProxy : St -> (Exn + ProxyConfig) * St.
Variable proxyFetch : string -> St -> (Exn + FetchResponse) * St.
(** [new URL(url)]; [None] when the constructor throws. *)
Variable URL_parse : string -> option URL.
(** The [TypeError] that [Headers.set] throws for a name and a value it
    refuses; its message is the platform's. *)
Variable invalidHeader : string -> string -> Exn.

(** Step 3, second half: the [try { new URL(url) ... } catch] block.
    [Some r] is an early [return r]; [None] falls through. *)
Definition validateUrl (url : string) : M St (option Response) :=
  match URL_parse url with
  | Some parsed =>
      if negb (JsString.includes ["http:"; "https:"] (protocol parsed)) then
        r <- c_json (JObject
               [ ("error", JString "Only http:// and https:// URLs are allowed") ])
               400 ;;
        ret (Some r)
      else
        let host := JsString.toLowerCase (hostname parsed) in
        if private_host host then
          r <- c_json (JObject
                 [ ("error", JString "Private/internal URLs are not allowed") ])
                 400 ;;
          ret (Some r)
        else ret None
  | None =>
      r <- c_json (JObject [ ("error", JString "Invalid URL format") ]) 400 ;;
      ret (Some r)
  end.

(** Step 4: fetch the URL through the mobile proxy. *)
Definition fetchStep (payment : Payment) (verification : Verification)
    (url : string) : M St Response :=
  try_catch
    (proxy <- call EvGetProxy getProxy ;;
     response <- call (EvProxyFetch url) (proxyFetch url) ;;
     text <- await EvReadBody (fr_text response) ;;
     let maxLen := 50000%nat in
     c_header invalidHeader "X-Payment-Settled" "true" ;;;
     c_header invalidHeader "X-Payment-TxHash" (txHash payment) ;;;
     c_json (JObject
       [ ("url", JString url);
         ("status", JNumber (inject_Z (fr_status response)));
         ("text", JString (if (maxLen <? String.length text)%nat
                           then String.substring 0 maxLen text
                           else text));
         ("contentLength", JNumber (inject_Z (Z.of_nat (String.length text))));
         ("proxy", JObject [ ("country", country proxy);
                             ("type", JString "mobile") ]);
         ("payment", JObject
            [ ("txHash", JString (txHash payment));
              ("network", JString (network_name (network payment)));
              ("amount", amount verification);
              ("settled", JBool true) ]) ])
       200)
    (fun err =>
       c_json (JObject
         [ ("error", JString "Service execution failed");
           ("message", message err);
           ("hint", JString
              "The target URL may be unreachable or the proxy may be temporarily unavailable.") ])
         502).

(** Step 3: validate the input, then go on to step 4. *)
Definition inputStep (c : Ctx) (payment : Payment)
    (verification : Verification) : M St Response :=
  let url := req_query c "url" in
  if not_ url then
    c_json (JObject
      [ ("error", JString "Missing required parameter: ?url=<target_url>") ])
      400
  else
    let url := default EmptyString url in
    early <- validateUrl url ;;
    match early with
    | Some r => ret r
    | None => fetchStep payment verification url
    end.

(** Step 2: verify the payment on-chain, then go on to step 3. *)
Definition verifyStep (c : Ctx) (payment : Payment)
    (walletAddress : string) : M St Response :=
  verification <-
    call (EvVerifyPayment payment walletAddress PRICE_USDC)
         (verifyPayment payment walletAddress PRICE_USDC) ;;
  if negb (valid verification) then
    c_json (JObject
      [ ("error", JString "Payment verification failed");
        ("reason", error verification);
        ("hint", JString
           "Ensure the transaction is confirmed and sends the correct USDC amount to the recipient wallet.") ])
      402
  else inputStep c payment verification.

(** [serviceRouter.get('/run', async (c) => ...)]: the wallet check and
    step 1, the check for a payment, then on to step 2. *)
Definition run (c : Ctx) : M St Response :=
  let walletAddress := env "WALLET_ADDRESS" in
  if not_ walletAddress then
    c_json (JObject
      [ ("error", JString "Service misconfigured: WALLET_ADDRESS not set") ]) 500
  else
    let walletAddress := default EmptyString walletAddress in
    match extractPayment c with
    | None =>
        c_json (build402Response "/api/run" DESCRIPTION PRICE_USDC
                  walletAddress OUTPUT_SCHEMA) 402
    | Some payment => verifyStep c payment walletAddress
    end.

(** One request served from process state [st]: fresh trace, no
    response header set yet. *)
Definition serve (st : St) (c : Ctx) : (Exn + Response) * Sys St :=
  run c {| store := st; trace := []; resHeaders := [] |}.

End Handler.

(** The collaborators of the handler, bundled. *)
Record Imports (St : Type) : Type := mkImports {
  env : string -> option string;
  extractPayment : Ctx -> option Payment;
  verifyPayment : Payment -> string -> Q -> St -> (Exn + Verification) * St;
  build402Response : string -> string -> Q -> string -> JsValue -> JsValue;
  getProxy : St -> (Exn + ProxyConfig) * St;
  proxyFetch : string -> St -> (Exn + FetchResponse) * St;
  URL_parse : string -> option URL;
  invalidHeader : string -> string -> Exn;
}.

Arguments env {St} _ _.
Arguments extractPayment {St} _ _.
Arguments verifyPayment {St} _ _ _ _ _.
Arguments build402Response {St} _ _ _ _ _ _.
Arguments getProxy {St} _ _.
Arguments proxyFetch {St} _ _ _.
Arguments URL_parse {St} _ _.
Arguments invalidHeader {St} _ _ _.

(** The handler over a bundle of collaborators. *)
Definition handle {St} (d : Imports St) (st : St) (c : Ctx)
    : (Exn + Response) * Sys St :=
  serve (env d) (extractPayment d) (verifyPayment d) (build402Response d)
        (getProxy d) (proxyFetch d) (URL_parse d) (invalidHeader d) st c.

End Service.

(** ** The payment collaborators ([./payment])

    [service.ts] imports [extractPayment], [verifyPayment] and
    [build402Response] from [payment.ts], which is not among the sources.
    The definitions below follow the specification of these components. *)

#[global] Instance Network_eq_dec : EqDecision Network.
Proof. solve_decision. Defined.

#[global] Instance Network_countable : Countable Network.
Proof.
  refine (inj_countable' (fun n => match n with solana => true | base => false end)
                         (fun b : bool => if b then solana else base) _).
  intros []; reflexivity.
Defined.

Module ChainVerifier.

(** Modelled from the spec: the reasons of the error taxonomy
    (section 7) that a chain verifier produces; [payment.ts] is absent. *)
Inductive Reason : Type :=
| TxNotFound
| Pending
| AmountMismatch
| RecipientMismatch
| RpcUnavailable.

(** Modelled from the spec: [outcome: Accepted | Rejected(reason)] of the
    data model; [payment.ts] is absent. *)
Inductive Outcome : Type :=
| Accepted
| Rejected (reason : Reason).

(** Modelled from the spec: [VerificationResult] of the data model,
    [{ outcome, payer, recipient, amountUsd }]; [payment.ts] is absent. *)
Record VerificationResult : Type := mkResult {
  outcome : Outcome;
  payer : string;
  recipient : string;
  amountUsd : Q;
}.

(** Modelled from the spec: what a chain's RPC surface answers for a
    transaction id ([payment.ts] is absent). An RPC failure (rate limit,
    network failure, malformed response), no such transaction, or the
    transfer found in it: payer, destination and the amount in USD. *)
Inductive ChainReply : Type :=
| RpcError
| NotFound
| Transfer (from to : string) (usd : Q).

(** Modelled from the spec: the tolerance factor of [payment.ts] (absent);
    both variants accept when [amountUsd >= requiredPriceUsd * 0.98]. *)
Definition TOLERANCE : Q := 98 # 100.

(** Modelled from the spec: the uniform tolerance test of [payment.ts]
    (absent), over exact rationals. *)
Definition within_tolerance (requiredPriceUsd amountUsd : Q) : bool :=
  Qle_bool (requiredPriceUsd * TOLERANCE) amountUsd.

(** Modelled from the spec: the Solana variant of the chain verifier of
    [payment.ts] (absent), section 4.5. Not found is [Pending]; amount
    below tolerance is [AmountMismatch]; recipient mismatch is
    [RecipientMismatch]; an RPC error fails closed. *)
Definition verifySolana (reply : ChainReply) (requiredRecipient : string)
    (requiredPriceUsd : Q) : VerificationResult :=
  match reply with
  | RpcError => mkResult (Rejected RpcUnavailable) EmptyString EmptyString 0
  | NotFound => mkResult (Rejected Pending) EmptyString EmptyString 0
  | Transfer from to usd =>
      if negb (within_tolerance requiredPriceUsd usd) then
        mkResult (Rejected AmountMismatch) from to usd
      else if negb (String.eqb to requiredRecipient) then
        mkResult (Rejected RecipientMismatch) from to usd
      else mkResult Accepted from to usd
  end.

(** Modelled from the spec: the Base/EVM variant of the chain verifier of
    [payment.ts] (absent), section 4.5. The destination of the transfer
    event is checked first, then the converted amount against the same
    tolerance. *)
Definition verifyBase (reply : ChainReply) (requiredRecipient : string)
    (requiredPriceUsd : Q) : VerificationResult :=
  match reply with
  | RpcError => mkResult (Rejected RpcUnavailable) EmptyString EmptyString 0
  | NotFound => mkResult (Rejected TxNotFound) EmptyString EmptyString 0
  | Transfer from to usd =>
      if negb (String.eqb to requiredRecipient) then
        mkResult (Rejected RecipientMismatch) from to usd
      else if negb (within_tolerance requiredPriceUsd usd) then
        mkResult (Rejected AmountMismatch) from to usd
      else mkResult Accepted from to usd
  end.

(** Modelled from the spec: the verifier of [payment.ts] (absent) is a
    tagged union over [Network]; the caller dispatches by tag
    (section 9). *)
Definition verify (n : Network) : ChainReply -> string -> Q -> VerificationResult :=
  match n with
  | solana => verifySolana
  | base => verifyBase
  end.

(** Modelled from the spec: the stable machine-readable reason codes
    (section 7) of [payment.ts] (absent). *)
Definition reason_code (r : Reason) : string :=
  match r with
  | TxNotFound => "TxNotFound"
  | Pending => "Pending"
  | AmountMismatch => "AmountMismatch"
  | RecipientMismatch => "RecipientMismatch"
  | RpcUnavailable => "RpcUnavailable"
  end.

End ChainVerifier.

Module ReplayGuard.

(** Modelled from the spec: the result of [consume] of [payment.ts]
    (absent), [FirstUse | AlreadyUsed]. *)
Inductive ConsumeResult : Type := FirstUse | AlreadyUsed.

#[global] Instance ConsumeResult_eq_dec : EqDecision ConsumeResult.
Proof. solve_decision. Defined.

(** The composite key [(network, transactionId)] of a [ReplayRecord]. *)
Abbreviation Key := (Network * string)%type.

(** Modelled from the spec: [consume(network, transactionId)] of the
    replay guard of [payment.ts] (absent), section 4.6: a check-and-set
    in one step on the map from key to consumption timestamp. *)
Definition consume (now : Z) (k : Key) (seen : gmap Key Z)
    : ConsumeResult * gmap Key Z :=
  match seen !! k with
  | Some _ => (AlreadyUsed, seen)
  | None => (FirstUse, <[k := now]> seen)
  end.

(** A run of the process: the [consume] calls it makes, in order, each
    with the time it is made at. *)
Fixpoint consumeAll (calls : list (Key * Z)) (seen : gmap Key Z)
    : list ConsumeResult * gmap Key Z :=
  match calls with
  | [] => ([], seen)
  | (k, now) :: rest =>
      let '(r, seen') := consume now k seen in
      let '(rs, seen'') := consumeAll rest seen' in
      (r :: rs, seen'')
  end.

(** The results of a run that starts with nothing consumed. *)
Definition results (calls : list (Key * Z)) : list ConsumeResult :=
  (consumeAll calls ∅).1.

(** The replay store after the first [i] calls of a run. *)
Definition seenAfter (i : nat) (calls : list (Key * Z)) : gmap Key Z :=
  (consumeAll (take i calls) ∅).2.

(** The number of calls of a run that took [k] from absent to present. *)
Definition transitions (k : Key) (calls : list (Key * Z)) : nat :=
  length (filter (fun cr : (Key * Z) * ConsumeResult =>
                    cr.1.1 = k ∧ cr.2 = FirstUse)
                 (zip calls (results calls))).

End ReplayGuard.

Module Gate.

Import ChainVerifier ReplayGuard.

(** The process state the payment gate works on: the chain as the RPC
    endpoints answer for it, the clock and the replay store. *)
Record World : Type := mkWorld {
  chain : Payment -> ChainReply;
  clock : Z;
  seen : gmap Key Z;
}.

(** Modelled from the spec: [verifyPayment] of [payment.ts] (absent), the
    transitions 3 and 4 of the gate (section 4.7). The claim goes to the
    matching chain verifier; any outcome other than [Accepted] is a
    denial with its reason and leaves the replay store alone; an accepted
    claim is consumed, and denied when it was consumed before. The
    result has the shape [service.ts] reads: [valid], [error],
    [amount]. *)
Definition verifyPayment (payment : Payment) (recipient : string)
    (price : Q) (w : World) : (Exn + Verification) * World :=
  let r := verify (network payment) (chain w payment) recipient price in
  match outcome r with
  | Rejected reason =>
      (inr {| valid := false; error := JString (reason_code reason);
              amount := JUndefined |}, w)
  | Accepted =>
      match consume (clock w) (network payment, txHash payment) (seen w) with
      | (FirstUse, seen') =>
          (inr {| valid := true; error := JUndefined;
                  amount := JNumber (amountUsd r) |},
           {| chain := chain w; clock := clock w; seen := seen' |})
      | (AlreadyUsed, seen') =>
          (inr {| valid := false; error := JString "AlreadyUsed";
                  amount := JUndefined |},
           {| chain := chain w; clock := clock w; seen := seen' |})
      end
  end.

(** Modelled from the spec: the body of the 402 response on a missing
    payment built by [build402Response] of [payment.ts] (absent),
    [{ price, wallet, networks: [...], endpoint, description, schema }]
    (section 6). *)
Definition build402Response (endpoint description : string) (price : Q)
    (walletAddress : string) (schema : JsValue) : JsValue :=
  JObject
    [ ("price", JNumber price);
      ("wallet", JString walletAddress);
      ("networks", JArray [ JString (network_name solana);
                            JString (network_name base) ]);
      ("endpoint", JString endpoint);
      ("description", JString description);
      ("schema", schema) ].

End Gate.

(** ** Concrete requests

    A process with a configured wallet, one payment claim in the request
    headers, [Gate.verifyPayment] over a chain that holds one matching
    transfer, and a proxy that answers every fetch with a short page. *)

Module Demo.

Import ChainVerifier ReplayGuard.

Definition wallet : string := "RecipientWallet111".

Definition env (name : string) : option string :=
  if String.eqb name "WALLET_ADDRESS" then Some wallet else None.

Definition env_unset (name : string) : option string := None.

Definition claim : Payment := {| txHash := "tx-1"; network := solana |}.

Definition extractPayment (c : Ctx) : option Payment :=
  match req_header c "Payment-Signature" with
  | Some h => Some {| txHash := h; network := solana |}
  | None => None
  end.

Definition request (url : option string) : Ctx :=
  {| req_query := fun k => if String.eqb k "url" then url else None;
     req_header := fun k =>
       if String.eqb k "Payment-Signature" then Some (txHash claim) else None |}.

Definition request_unpaid (url : option string) : Ctx :=
  {| req_query := fun k => if String.eqb k "url" then url else None;
     req_header := fun _ => None |}.

Definition paid_chain (p : Payment) : ChainReply :=
  if String.eqb (txHash p) "tx-1" then Transfer "Payer111" wallet (5 # 1000)
  else NotFound.

Definition world : Gate.World :=
  {| Gate.chain := paid_chain; Gate.clock := 1000; Gate.seen := ∅ |}.

(** A chain that does not hold the claimed transaction. *)
Definition world_unpaid : Gate.World :=
  {| Gate.chain := fun _ => NotFound; Gate.clock := 1000; Gate.seen := ∅ |}.

(** What the platform's [URL] constructor yields on the URLs the examples
    use: protocol and host name. Any other string counts as unparsable in
    the examples. *)
Definition URL_table : list (string * URL) :=
  [ ("http://127.0.0.1/", {| protocol := "http:"; hostname := "127.0.0.1" |});
    ("http://169.254.169.254/latest/meta-data",
     {| protocol := "http:"; hostname := "169.254.169.254" |});
    ("https://svc.internal",
     {| protocol := "https:"; hostname := "svc.internal" |});
    ("https://example.com",
     {| protocol := "https:"; hostname := "example.com" |});
    ("ftp://example.com/file",
     {| protocol := "ftp:"; hostname := "example.com" |}) ].

Definition URL_parse (url : string) : option URL :=
  snd <$> List.find (fun kv => String.eqb url (fst kv)) URL_table.

Definition getProxy (w : Gate.World) : (Exn + ProxyConfig) * Gate.World :=
  (inr {| country := JString "US" |}, w).

Definition proxyFetch (url : string) (w : Gate.World)
    : (Exn + FetchResponse) * Gate.World :=
  (inr {| fr_status := 200; fr_text := inr "<html>hello</html>" |}, w).

Definition proxyFetch_down (url : string) (w : Gate.World)
    : (Exn + FetchResponse) * Gate.World :=
  (inl {| message := JString "Proxy fetch failed after 3 attempts" |}, w).

(** The error of [Headers.set], worded as one platform words it. *)
Definition invalidHeader (name value : string) : Exn :=
  {| message := JString ("Invalid header value for " ++ name) |}.

(** A string of [n] copies of the letter a. *)
Fixpoint page (n : nat) : string :=
  match n with
  | O => EmptyString
  | S m => String "a"%char (page m)
  end.

(** The process, given its environment and its fetch client. *)
Definition imports_with (e : string -> option string)
    (f : string -> Gate.World -> (Exn + FetchResponse) * Gate.World)
    : Service.Imports Gate.World :=
  {| Service.env := e;
     Service.extractPayment := extractPayment;
     Service.verifyPayment := Gate.verifyPayment;
     Service.build402Response := Gate.build402Response;
     Service.getProxy := getProxy;
     Service.proxyFetch := f;
     Service.URL_parse := URL_parse;
     Service.invalidHeader := invalidHeader |}.

Definition imports : Service.Imports Gate.World :=
  imports_with env proxyFetch.

(** The same process with the wallet left out of the environment. *)
Definition imports_unset : Service.Imports Gate.World :=
  imports_with env_unset proxyFetch.

(** The same process behind a proxy that is down. *)
Definition imports_down : Service.Imports Gate.World :=
  imports_with env proxyFetch_down.

(** The same process fetching a page of [n] characters. *)
Definition imports_page (n : nat) : Service.Imports Gate.World :=
  imports_with env
    (fun _ w => (inr {| fr_status := 200; fr_text := inr (page n) |}, w)).

(** The same process when reading the fetched body fails. *)
Definition imports_cut : Service.Imports Gate.World :=
  imports_with env
    (fun _ w =>
       (inr {| fr_status := 200;
               fr_text := inl {| message := JString "socket closed" |} |}, w)).

(** The same process with no proxy configured: [getProxy] throws. *)
Definition imports_noproxy : Service.Imports Gate.World :=
  {| Service.env := env;
     Service.extractPayment := extractPayment;
     Service.verifyPayment := Gate.verifyPayment;
     Service.build402Response := Gate.build402Response;
     Service.getProxy := fun w =>
       (inl {| message := JString "Proxy not configured" |}, w);
     Service.proxyFetch := proxyFetch;
     Service.URL_parse := URL_parse;
     Service.invalidHeader := invalidHeader |}.

(** The same process with [WALLET_ADDRESS] set to the empty string. *)
Definition imports_blank : Service.Imports Gate.World :=
  imports_with (fun _ => Some EmptyString) proxyFetch.

(** A request presenting the transaction id [sig]. *)
Definition request_signed (sig : string) (url : option string) : Ctx :=
  {| req_query := fun k => if String.eqb k "url" then url else None;
     req_header := fun k =>
       if String.eqb k "Payment-Signature" then Some sig else None |}.

(** A chain that holds a matching transfer for every transaction id. *)
Definition world_open : Gate.World :=
  {| Gate.chain := fun _ => Transfer "Payer111" wallet (5 # 1000);
     Gate.clock := 1000; Gate.seen := ∅ |}.

(** Transaction ids that are not header values: one with a line feed
    inside, one with spaces around it. *)
Definition broken_hash : string :=
  String "a"%char (String (Ascii.ascii_of_nat 10) (String "b"%char EmptyString)).
Definition padded_hash : string := " tx 1 ".

(** The verification of [claim] in [world], and the world it leaves. *)
Definition verified : Verification :=
  {| valid := true; error := JUndefined; amount := JNumber (5 # 1000) |}.

(** A run of [consume] calls: one transaction presented twice, with a
    call for another transaction in between, then the same id on the
    other network. *)
Definition calls : list ((Network * string) * Z) :=
  [ ((solana, "tx-1"), 1%Z); ((base, "0xabc"), 2%Z);
    ((solana, "tx-1"), 3%Z); ((base, "tx-1"), 4%Z) ].

Definition world_paid : Gate.World :=
  {| Gate.chain := paid_chain; Gate.clock := 1000;
     Gate.seen := <[(solana, txHash claim) := 1000%Z]> ∅ |}.

End Demo.

(** ** The vocabulary of the statements *)

Module Claims.

Import Service.

(** The block list in words: the host name is [localhost], begins with one
    of the private prefixes, is the metadata address, or ends with one of
    the internal suffixes. *)
Definition on_block_list (host : string) : Prop :=
  host = "localhost" ∨
  (∃ rest, host = "127." ++ rest) ∨
  (∃ rest, host = "10." ++ rest) ∨
  (∃ rest, host = "192.168." ++ rest) ∨
  (∃ rest, host = "172." ++ rest) ∨
  host = "169.254.169.254" ∨
  (∃ front, host = front ++ ".local") ∨
  (∃ front, host = front ++ ".internal").

(** The scheme is neither http nor https. *)
Definition other_scheme (parsed : URL) : Prop :=
  protocol parsed ≠ "http:" ∧ protocol parsed ≠ "https:".

(** The block condition as the handler applies it, to the lower-cased host
    name. The [URL] constructor yields http and https host names in lower
    case already. *)
Definition ssrf_blocked (parsed : URL) : Prop :=
  other_scheme parsed ∨ on_block_list (JsString.toLowerCase (hostname parsed)).

Section Outcomes.

Context {St : Type}.

(** The wallet is configured as [w]. *)
Definition configured (d : Imports St) (w : string) : Prop :=
  env d "WALLET_ADDRESS" = Some w ∧ JsString.truthy w = true.

(** The request carries the claim [p], and verifying it in state [st]
    returns [v] and leaves state [st']. *)
Definition verifies (d : Imports St) (st : St) (c : Ctx) (w : string)
    (p : Payment) (v : Verification) (st' : St) : Prop :=
  configured d w ∧
  extractPayment d c = Some p ∧
  verifyPayment d p w PRICE_USDC st = (inr v, st').

(** The request asks for the non-empty [url]. *)
Definition asks (c : Ctx) (url : string) : Prop :=
  req_query c "url" = Some url ∧ JsString.truthy url = true.

(** The request passes payment verification and URL validation with
    the target [url]. *)
Definition cleared (d : Imports St) (st : St) (c : Ctx) (w : string)
    (p : Payment) (v : Verification) (st' : St) (url : string) : Prop :=
  verifies d st c w p v st' ∧ valid v = true ∧ asks c url ∧
  ∃ parsed, URL_parse d url = Some parsed ∧ ¬ ssrf_blocked parsed.

(** The [url] parameter is missing or invalid: absent or empty, not
    parsed by [URL], or refused by the guard. *)
Definition bad_url (d : Imports St) (c : Ctx) : Prop :=
  not_ (req_query c "url") = true ∨
  ∃ url, asks c url ∧
    (URL_parse d url = None ∨
     ∃ parsed, URL_parse d url = Some parsed ∧ ssrf_blocked parsed).

(** The handler answered with status [code] and an object with the
    properties [keys]. *)
Definition responds (out : (Exn + Response) * Sys St) (code : nat)
    (keys : list string) : Prop :=
  ∃ resp, out.1 = inr resp ∧ status resp = code ∧
          object_keys (body resp) = keys.

(** No outbound fetch was made. *)
Definition no_fetch (out : (Exn + Response) * Sys St) : Prop :=
  Forall (fun e => is_fetch e = false) (trace out.2).

(** No chain verification was made. *)
Definition no_verify (out : (Exn + Response) * Sys St) : Prop :=
  Forall (fun e => is_verify e = false) (trace out.2).

(** The SSRF guard rejected the request: status 400, a body holding
    just [error], nothing fetched. *)
Definition rejected (out : (Exn + Response) * Sys St) : Prop :=
  (∃ resp, out.1 = inr resp ∧ status resp = 400 ∧
           wire_keys (body resp) = ["error"]) ∧
  no_fetch out.

(** The response of a request, when it did not end in a thrown error. *)
Definition answered (out : (Exn + Response) * Sys St) : option Response :=
  match out.1 with
  | inr resp => Some resp
  | inl _ => None
  end.

(** The value of response header [name]. *)
Definition header_of (resp : Response) (name : string) : option string :=
  snd <$> List.find (fun kv => String.eqb name (fst kv)) (headers resp).

End Outcomes.

End Claims.

(** ** The paths of the handler

    A relational account of [run]: each constructor is one way through the
    handler, with the collaborator outcomes that select it, the response it
    sends and the state it leaves. *)

Module Paths.

Import Service Claims.

(** The state a request starts from. *)
Definition fresh {St : Type} (st : St) : Sys St :=
  {| store := st; trace := []; resHeaders := [] |}.

(** The state after the calls [calls], with the headers [hs] set. *)
Definition after {St : Type} (st : St) (calls : list Event)
    (hs : list (string * string)) : Sys St :=
  {| store := st; trace := calls; resHeaders := hs |}.

(** The response with one [error] property. *)
Definition error_response (code : nat) (msg : string) : Response :=
  {| status := code; headers := []; body := JObject [ ("error", JString msg) ] |}.

(** The 402 sent for a verification that is not valid. *)
Definition denied_response (v : Verification) : Response :=
  {| status := 402; headers := [];
     body := JObject
       [ ("error", JString "Payment verification failed");
         ("reason", error v);
         ("hint", JString
            "Ensure the transaction is confirmed and sends the correct USDC amount to the recipient wallet.") ] |}.

(** The 502 sent from the catch block of step 4. *)
Definition failed_response (e : Exn) : Response :=
  {| status := 502; headers := [];
     body := JObject
       [ ("error", JString "Service execution failed");
         ("message", message e);
         ("hint", JString
            "The target URL may be unreachable or the proxy may be temporarily unavailable.") ] |}.

(** The 502 sent from the catch block when the second [c.header] threw:
    the first header is set already and goes out with it. *)
Definition half_settled_response (e : Exn) : Response :=
  {| status := 502; headers := [ ("X-Payment-Settled", "true") ];
     body := body (failed_response e) |}.

(** The two headers set before the 200 is sent. *)
Definition settled_headers (p : Payment) : list (string * string) :=
  [ ("X-Payment-Settled", "true");
    ("X-Payment-TxHash", Headers.normalize (txHash p)) ].

(** The 200 sent when the page was fetched and read. *)
Definition ok_response (p : Payment) (v : Verification) (url : string)
    (proxy : ProxyConfig) (r : FetchResponse) (text : string) : Response :=
  {| status := 200;
     headers := settled_headers p;
     body := JObject
       [ ("url", JString url);
         ("status", JNumber (inject_Z (fr_status r)));
         ("text", JString
            (if (50000 <? String.length text)%nat
             then String.substring 0 50000 text else text));
         ("contentLength", JNumber (inject_Z (Z.of_nat (String.length text))));
         ("proxy", JObject [ ("country", country proxy);
                             ("type", JString "mobile") ]);
         ("payment", JObject
            [ ("txHash", JString (txHash p));
              ("network", JString (network_name (network p)));
              ("amount", amount v);
              ("settled", JBool true) ]) ] |}.

(** Why step 3 refuses the [url] parameter, and the message it sends. The
    scheme is looked at before the host. *)
Inductive Refused {St : Type} (d : Imports St) (c : Ctx) : string → Prop :=
| refused_missing :
    not_ (req_query c "url") = true →
    Refused d c "Missing required parameter: ?url=<target_url>"
| refused_format (url : string) :
    asks c url → URL_parse d url = None →
    Refused d c "Invalid URL format"
| refused_scheme (url : string) (parsed : URL) :
    asks c url → URL_parse d url = Some parsed → other_scheme parsed →
    Refused d c "Only http:// and https:// URLs are allowed"
| refused_private (url : string) (parsed : URL) :
    asks c url → URL_parse d url = Some parsed → ¬ other_scheme parsed →
    on_block_list (JsString.toLowerCase (hostname parsed)) →
    Refused d c "Private/internal URLs are not allowed".

(** The outcomes of one request served from state [st]. *)
Inductive Served {St : Type} (d : Imports St) (st : St) (c : Ctx)
    : (Exn + Response) * Sys St → Prop :=
| served_unconfigured :
    not_ (env d "WALLET_ADDRESS") = true →
    Served d st c
      (inr (error_response 500 "Service misconfigured: WALLET_ADDRESS not set"),
       fresh st)
| served_unpaid (w : string) :
    configured d w → extractPayment d c = None →
    Served d st c
      (inr {| status := 402; headers := [];
              body := build402Response d "/api/run" DESCRIPTION PRICE_USDC w
                        OUTPUT_SCHEMA |},
       fresh st)
| served_verify_throws (w : string) (p : Payment) (e : Exn) (st' : St) :
    configured d w → extractPayment d c = Some p →
    verifyPayment d p w PRICE_USDC st = (inl e, st') →
    Served d st c (inl e, after st' [EvVerifyPayment p w PRICE_USDC] [])
| served_denied (w : string) (p : Payment) (v : Verification) (st' : St) :
    verifies d st c w p v st' → valid v = false →
    Served d st c
      (inr (denied_response v), after st' [EvVerifyPayment p w PRICE_USDC] [])
| served_refused (w : string) (p : Payment) (v : Verification) (st' : St)
    (msg : string) :
    verifies d st c w p v st' → valid v = true → Refused d c msg →
    Served d st c
      (inr (error_response 400 msg),
       after st' [EvVerifyPayment p w PRICE_USDC] [])
| served_proxy_throws (w : string) (p : Payment) (v : Verification)
    (st' st1 : St) (url : string) (e : Exn) :
    cleared d st c w p v st' url →
    getProxy d st' = (inl e, st1) →
    Served d st c
      (inr (failed_response e),
       after st1 [EvVerifyPayment p w PRICE_USDC; EvGetProxy] [])
| served_fetch_throws (w : string) (p : Payment) (v : Verification)
    (st' st1 st2 : St) (url : string) (proxy : ProxyConfig) (e : Exn) :
    cleared d st c w p v st' url →
    getProxy d st' = (inr proxy, st1) →
    proxyFetch d url st1 = (inl e, st2) →
    Served d st c
      (inr (failed_response e),
       after st2 [EvVerifyPayment p w PRICE_USDC; EvGetProxy; EvProxyFetch url] [])
| served_body_throws (w : string) (p : Payment) (v : Verification)
    (st' st1 st2 : St) (url : string) (proxy : ProxyConfig)
    (r : FetchResponse) (e : Exn) :
    cleared d st c w p v st' url →
    getProxy d st' = (inr proxy, st1) →
    proxyFetch d url st1 = (inr r, st2) →
    fr_text r = inl e →
    Served d st c
      (inr (failed_response e),
       after st2 [EvVerifyPayment p w PRICE_USDC; EvGetProxy;
                  EvProxyFetch url; EvReadBody] [])
| served_ok (w : string) (p : Payment) (v : Verification)
    (st' st1 st2 : St) (url : string) (proxy : ProxyConfig)
    (r : FetchResponse) (text : string) :
    cleared d st c w p v st' url →
    getProxy d st' = (inr proxy, st1) →
    proxyFetch d url st1 = (inr r, st2) →
    fr_text r = inr text →
    Headers.accepts (txHash p) = true →
    Served d st c
      (inr (ok_response p v url proxy r text),
       after st2 [EvVerifyPayment p w PRICE_USDC; EvGetProxy;
                  EvProxyFetch url; EvReadBody] (settled_headers p))
| served_header_throws (w : string) (p : Payment) (v : Verification)
    (st' st1 st2 : St) (url : string) (proxy : ProxyConfig)
    (r : FetchResponse) (text : string) :
    cleared d st c w p v st' url →
    getProxy d st' = (inr proxy, st1) →
    proxyFetch d url st1 = (inr r, st2) →
    fr_text r = inr text →
    Headers.accepts (txHash p) = false →
    Served d st c
      (inr (half_settled_response
              (invalidHeader d "X-Payment-TxHash" (txHash p))),
       after st2 [EvVerifyPayment p w PRICE_USDC; EvGetProxy;
                  EvProxyFetch url; EvReadBody]
         [ ("X-Payment-Settled", "true") ]).

End Paths.

(** ** More string operations *)

Module JsText.

(** [s.includes(sub)], also the test of a regular expression that is one
    literal. *)
Fixpoint contains (s sub : string) : bool :=
  JsString.startsWith s sub ||
  match s with
  | EmptyString => false
  | String _ rest => contains rest sub
  end.

(** The string without its first [n] characters. *)
Fixpoint skip (n : nat) (s : string) : string :=
  match n, s with
  | O, _ => s
  | S m, String _ rest => skip m rest
  | S _, EmptyString => EmptyString
  end.

(** The longest prefix whose characters all satisfy [f]. *)
Fixpoint take_while (f : Ascii.ascii -> bool) (s : string) : string :=
  match s with
  | String c rest => if f c then String c (take_while f rest) else EmptyString
  | EmptyString => EmptyString
  end.

Fixpoint all_chars (f : Ascii.ascii -> bool) (s : string) : bool :=
  match s with
  | String c rest => f c && all_chars f rest
  | EmptyString => true
  end.

Fixpoint some_char (f : Ascii.ascii -> bool) (s : string) : bool :=
  match s with
  | String c rest => f c || some_char f rest
  | EmptyString => false
  end.

Definition between (lo hi : nat) (c : Ascii.ascii) : bool :=
  let n := Ascii.nat_of_ascii c in ((lo <=? n) && (n <=? hi))%nat.

(** [\d] *)
Definition is_digit : Ascii.ascii -> bool := between 48 57.

(** [[a-zA-Z]] *)
Definition is_letter (c : Ascii.ascii) : bool :=
  between 97 122 c || between 65 90 c.

(** [[a-f0-9]] under the [i] flag *)
Definition is_hex (c : Ascii.ascii) : bool :=
  between 97 102 c || between 65 70 c || is_digit c.

(** [arr.slice(0, end)] for an integer [end]: a negative [end] counts from
    the end of the array. *)
Definition slice0 {A : Type} (l : list A) (stop : Z) : list A :=
  if (stop <? 0)%Z
  then take (Z.to_nat (Z.max (Z.of_nat (length l) + stop) 0)) l
  else take (Z.to_nat stop) l.

(** Truthiness of a value. *)
Definition truthy (v : JsValue) : bool :=
  match v with
  | JUndefined | JNull => false
  | JBool b => b
  | JNumber q => negb (Qeq_bool q 0)
  | JString s => JsString.truthy s
  | JArray _ | JObject _ => true
  end.

End JsText.

(** ** [src/scrapers/job-scraper.ts]: the LinkedIn enrichment class *)

Module LinkedIn.

(** [[^\/\?]] *)
Definition id_char (c : Ascii.ascii) : bool :=
  negb (Ascii.eqb c "/"%char || Ascii.eqb c "?"%char).

(** [s.match(/<lit>([^\/\?]+)/)], group 1: the first place where [lit] is
    followed by at least one character other than a slash or a question
    mark, and the longest run of such characters there. *)
Fixpoint match_id (lit : string) (s : string) : option string :=
  let here :=
    if JsString.startsWith s lit
    then match JsText.take_while id_char (JsText.skip (String.length lit) s) with
         | EmptyString => None
         | id => Some id
         end
    else None in
  match here with
  | Some id => Some id
  | None =>
      match s with
      | EmptyString => None
      | String _ rest => match_id lit rest
      end
  end.

(** The attempt of [match_id] at the start of [s]. *)
Definition here (lit s : string) : option string :=
  if JsString.startsWith s lit
  then match JsText.take_while id_char (JsText.skip (String.length lit) s) with
       | EmptyString => None
       | id => Some id
       end
  else None.

(** [/linkedin\.com\/in\/([^\/\?]+)/] *)
Definition extractProfileId (url : string) : option string :=
  match_id "linkedin.com/in/" url.

(** [/linkedin\.com\/company\/([^\/\?]+)/] *)
Definition extractCompanyId (url : string) : option string :=
  match_id "linkedin.com/company/" url.

Record LinkedInPerson : Type := mkPerson {
  person_url : string;
  profile_id : string;
  person_name : string;
  headline : string;
  company : string;
  person_location : string;
  connections : Z;
  skills : list string;
  person_enriched_at : string;
}.

Record LinkedInCompany : Type := mkCompany {
  company_url : string;
  company_id : string;
  company_name : string;
  industry : string;
  size : string;
  headquarters : string;
  website : string;
  followers : Z;
  company_enriched_at : string;
}.

(** [new Error(msg)] *)
Definition Error (msg : string) : Exn := {| message := JString msg |}.

(** [enrichPerson(linkedinUrl)], with [now] the reading of
    [new Date().toISOString()]. An empty id is falsy like [null]. *)
Definition enrichPerson (now : string) (linkedinUrl : string)
    : Exn + LinkedInPerson :=
  match extractProfileId linkedinUrl with
  | None | Some EmptyString => inl (Error "Invalid LinkedIn profile URL")
  | Some profileId =>
      inr {| person_url := linkedinUrl;
             profile_id := profileId;
             person_name := "John Doe";
             headline := "Software Engineer";
             company := "Tech Corp";
             person_location := "San Francisco, CA";
             connections := 500;
             skills := ["JavaScript"; "Node.js"; "React"; "TypeScript"];
             person_enriched_at := now |}
  end.

(** [enrichCompany(linkedinUrl)] *)
Definition enrichCompany (now : string) (linkedinUrl : string)
    : Exn + LinkedInCompany :=
  match extractCompanyId linkedinUrl with
  | None | Some EmptyString => inl (Error "Invalid LinkedIn company URL")
  | Some companyId =>
      inr {| company_url := linkedinUrl;
             company_id := companyId;
             company_name := "Tech Corp";
             industry := "Software Development";
             size := "1000-5000 employees";
             headquarters := "San Francisco, CA";
             website := "https://techcorp.com";
             followers := 10000;
             company_enriched_at := now |}
  end.

(** [Promise.all] over promises that are settled when it is called: the
    values in order, or the first rejection in array order. *)
Fixpoint Promise_all {A : Type} (ps : list (Exn + A)) : Exn + list A :=
  match ps with
  | [] => inr []
  | inl e :: _ => inl e
  | inr a :: rest =>
      match Promise_all rest with
      | inl e => inl e
      | inr l => inr (a :: l)
      end
  end.

(** [enrichPeopleBatch(urls)]; [clock i] is the clock reading of call
    [i]. *)
Definition enrichPeopleBatch (clock : nat -> string) (urls : list string)
    : Exn + list LinkedInPerson :=
  Promise_all (imap (fun i url => enrichPerson (clock i) url) urls).

(** [enrichCompaniesBatch(urls)] *)
Definition enrichCompaniesBatch (clock : nat -> string) (urls : list string)
    : Exn + list LinkedInCompany :=
  Promise_all (imap (fun i url => enrichCompany (clock i) url) urls).

End LinkedIn.

(** ** [src/scrapers/job-scraper.ts]: the scrapers *)

Module Jobs.

(** What a scraper reads of the response of [proxyFetch]. *)
Record Page : Type := mkPage {
  ok : bool;
  page_status : Z;
  statusText : string;
  page_text : Exn + string;
}.

Section Scrapers.

(** [W] is the state of the network; [L] is [JobListing]. *)
Context {W L : Type}.

(** [proxyFetch(url, options)]; the options are constants of each
    scraper. *)
Variable proxyFetch : string -> W -> (Exn + Page) * W.
(** [encodeURIComponent] *)
Variable encodeURIComponent : string -> string.
(** The conversion of a number inside a template literal. *)
Variable show : Z -> string.
(** [parseIndeedHtml] and [parseLinkedInHtml], driven by regular
    expressions over the page. *)
Variable parseIndeedHtml parseLinkedInHtml : string -> list L.

(** The part the two scrapers share: fetch, refuse a response that is not
    OK with [failed] and its status, read the body, parse, cut. *)
Definition scrape (url : string) (failed : string) (parse : string -> list L)
    (limit : Z) (w : W) : (Exn + list L) * W :=
  match proxyFetch url w with
  | (inl e, w') => (inl e, w')
  | (inr response, w') =>
      if negb (ok response) then
        (inl {| message := JString
                  (failed ++ show (page_status response) ++ " "
                     ++ statusText response) |}, w')
      else
        match page_text response with
        | inl e => (inl e, w')
        | inr html => (inr (JsText.slice0 (parse html) limit), w')
        end
  end.

(** [scrapeIndeed(query, location, limit)] *)
Definition scrapeIndeed (query location : string) (limit : Z)
    : W -> (Exn + list L) * W :=
  let searchTerm := encodeURIComponent query in
  let searchLoc := encodeURIComponent location in
  let url := "https://www.indeed.com/jobs?q=" ++ searchTerm ++ "&l=" ++ searchLoc in
  scrape url "Indeed fetch failed: " parseIndeedHtml limit.

(** [scrapeLinkedIn(query, location, limit)] *)
Definition scrapeLinkedIn (query location : string) (limit : Z)
    : W -> (Exn + list L) * W :=
  let searchTerm := encodeURIComponent query in
  let searchLoc := encodeURIComponent location in
  let url := "https://www.linkedin.com/jobs/search?keywords=" ++ searchTerm
               ++ "&location=" ++ searchLoc in
  scrape url "LinkedIn fetch failed: " parseLinkedInHtml limit.

End Scrapers.

End Jobs.

(** ** [scripts/proof-indeed.ts] *)

Module ProofIndeed.

(** One element of [all]. *)
Inductive Entry (L : Type) : Type :=
| Succeeded (i : nat) (startedAt : string) (count : nat) (sample : list L)
| Failed (i : nat) (startedAt : string) (error : JsValue).

Arguments Succeeded {L} _ _ _ _.
Arguments Failed {L} _ _ _.

Definition index {L : Type} (e : Entry L) : nat :=
  match e with Succeeded i _ _ _ | Failed i _ _ => i end.

(** [Math.max(1, Math.min(parseInt(runsRaw, 10) || 10, 50))], on the
    result of [parseInt]: [None] is [NaN]. *)
Definition clamp_runs (parsed : option Z) : Z :=
  let n := match parsed with
           | None => 10
           | Some 0 => 10
           | Some z => z
           end%Z in
  Z.max 1 (Z.min n 50).

Section Main.

Context {W L : Type}.

(** [parseInt(s, 10)] *)
Variable parseInt : string -> option Z.
(** [scrapeIndeed] *)
Variable scrapeIndeed : string -> string -> Z -> W -> (Exn + list L) * W.
(** [new Date().toISOString()] *)
Variable now : W -> string.
(** [await new Promise((r) => setTimeout(r, ms))] *)
Variable sleep : Z -> W -> W.
(** [String(e)] *)
Variable toString : Exn -> string.

(** The destructuring of [process.argv.slice(2)] with its defaults. *)
Definition query (argv : list string) : string :=
  default "Software Engineer" (argv !! 0%nat).
Definition location (argv : list string) : string :=
  default "Remote" (argv !! 1%nat).
Definition runsRaw (argv : list string) : string :=
  default "10" (argv !! 2%nat).

Definition runs (argv : list string) : Z :=
  clamp_runs (parseInt (runsRaw argv)).

(** The body of the [for] loop for one [i]: one element is pushed, in the
    [try] or in the [catch]. *)
Definition iteration (argv : list string) (i : nat) (st : list (Entry L) * W)
    : list (Entry L) * W :=
  let '(all, w) := st in
  let startedAt := now w in
  match scrapeIndeed (query argv) (location argv) 20 w with
  | (inr results, w') =>
      ((all ++ [Succeeded i startedAt (length results)
                  (JsText.slice0 results 3)])%list,
       sleep 350 w')
  | (inl e, w') =>
      ((all ++ [Failed i startedAt
                  (if JsText.truthy (message e) then message e
                   else JString (toString e))])%list,
       sleep 800 w')
  end.

(** The loop after its first [n] rounds. *)
Definition rounds (argv : list string) (w : W) (n : nat)
    : list (Entry L) * W :=
  foldl (fun st i => iteration argv i st) ([], w) (seq 0 n).

(** [for (let i = 0; i < runs; i++) { ... }] *)
Definition collect (argv : list string) (w : W) : list (Entry L) * W :=
  foldl (fun st i => iteration argv i st) ([], w)
        (seq 0 (Z.to_nat (runs argv))).

End Main.

End ProofIndeed.

(** ** Numbers

    A JavaScript number is an IEEE 754 binary64 value; [/] and [*] round to
    nearest, ties to even. *)

Module Number.

Definition prec : Z := 53.
Definition emax : Z := 1024.

(** The number of an integer. *)
Definition of_Z (z : Z) : spec_float := binary_normalize prec emax z 0 false.

Definition div : spec_float -> spec_float -> spec_float := SFdiv prec emax.
Definition mul : spec_float -> spec_float -> spec_float := SFmul prec emax.

(** [Math.round(x)]: the nearest integer, a tie going up. [None] stands
    for the results that are not integers: [NaN] and the infinities. *)
Definition round (x : spec_float) : option Z :=
  match x with
  | S754_zero _ => Some 0%Z
  | S754_finite s m e =>
      let n := if s then Z.neg m else Z.pos m in
      Some (if (0 <=? e)%Z then n * 2 ^ e
            else (2 * n + 2 ^ (- e)) / 2 ^ (- e + 1))%Z
  | S754_infinity _ | S754_nan => None
  end.

(** [Math.round((a / b) * 100)] for two array lengths. *)
Definition percent (a b : nat) : option Z :=
  round (mul (div (of_Z (Z.of_nat a)) (of_Z (Z.of_nat b))) (of_Z 100)).

End Number.

(** ** The reviews scraper (the Google reviews module) *)

Module Reviews.

(** [ReviewData], as the scraper builds it; ratings and like counts come
    from [parseInt] or are 0. *)
Record ReviewData : Type := mkReview {
  author : string;
  rating : Z;
  text : string;
  date : string;
  relativeDate : option string;
  likes : Z;
  ownerResponse : option string;
  ownerResponseDate : option string;
  photos : list string;
}.

(** [BusinessInfo], as the scraper builds it. *)
Record BusinessInfo : Type := mkBusiness {
  name : string;
  placeId : string;
  avg_rating : JsValue;
  totalReviews : JsValue;
  address : option string;
  phone : option string;
  website : option string;
  hours : JsValue;
  category : option string;
  categories : list string;
  priceLevel : option string;
  business_photos : list string;
  coordinates : JsValue;
  permanentlyClosed : bool;
}.

Record Sentiment : Type := mkSentiment {
  positive : option Z;
  neutral : option Z;
  negative : option Z;
}.

Record ReviewSummary (D : Type) : Type := mkSummary {
  avgRating : JsValue;
  summary_totalReviews : JsValue;
  ratingDistribution : D;
  responseRate : option Z;
  avgResponseTimeDays : JsValue;
  sentimentBreakdown : Sentiment;
}.

Arguments avgRating {D} _.
Arguments summary_totalReviews {D} _.
Arguments ratingDistribution {D} _.
Arguments responseRate {D} _.
Arguments avgResponseTimeDays {D} _.
Arguments sentimentBreakdown {D} _.

Definition responded (r : ReviewData) : bool :=
  match ownerResponse r with Some _ => true | None => false end.

(** [calculateSummary(reviews, info, dist)] *)
Definition calculateSummary {D : Type} (reviews : list ReviewData)
    (info : BusinessInfo) (dist : D) : ReviewSummary D :=
  let reviewsWithOwnerResponse := length (List.filter responded reviews) in
  let responseRate :=
    if (0 <? length reviews)%nat
    then Number.percent reviewsWithOwnerResponse (length reviews)
    else Some 0%Z in
  let rated := List.filter (fun r => (0 <? rating r)%Z) reviews in
  let positive := length (List.filter (fun r => (4 <=? rating r)%Z) rated) in
  let neutral := length (List.filter (fun r => (rating r =? 3)%Z) rated) in
  let negative := length (List.filter (fun r => (rating r <=? 2)%Z) rated) in
  let totalRated := match length rated with O => 1%nat | n => n end in
  {| avgRating := avg_rating info;
     summary_totalReviews := totalReviews info;
     ratingDistribution := dist;
     responseRate := responseRate;
     avgResponseTimeDays := JNull;
     sentimentBreakdown :=
       {| positive := Number.percent positive totalRated;
          neutral := Number.percent neutral totalRated;
          negative := Number.percent negative totalRated |} |}.

(** The cap the callers put on the reviews they summarise:
    [extractReviews(html, 50)]. *)
Definition REVIEW_CAP : nat := 50.

(** What is checked of [Math.round((a / b) * 100)], pair by pair, for
    every [a <= b <= REVIEW_CAP]: it is an integer between 0 and 100, within
    one half of the exact percentage, 0 only for [a = 0] and 100 only for
    [a = b]. *)
Definition percent_ok (a b : nat) : bool :=
  match Number.percent a b with
  | Some z =>
      let a' := Z.of_nat a in
      let b' := Z.of_nat b in
      ((0 <=? z) && (z <=? 100) &&
       (- b' <=? 2 * b' * z - 200 * a') && (2 * b' * z - 200 * a' <=? b') &&
       Bool.eqb (z =? 0) (a =? 0)%nat &&
       Bool.eqb (z =? 100) (a =? b)%nat)%Z
  | None => false
  end.

Definition percents_ok : bool :=
  forallb (fun b => forallb (fun a => percent_ok a b) (seq 0 (S b)))
          (seq 1 REVIEW_CAP).

(** *** Search results *)

(** The names [isValidBusinessName] refuses for what they contain, under
    the [i] flag. *)
Definition code_words : list string :=
  [ "function"; "var "; "let "; "const "; "return "; "null"; "undefined";
    "true"; "false"; "window." ].

(** [[{}();=+\\]] *)
Definition code_char (c : Ascii.ascii) : bool :=
  existsb (Ascii.eqb c)
    [ "{"; "}"; "("; ")"; ";"; "="; "+"; Ascii.ascii_of_nat 92 ]%char.

(** [isValidBusinessName(name)] *)
Definition isValidBusinessName (name : string) : bool :=
  if negb (JsString.truthy name) || (String.length name <? 2)%nat
     || (80 <? String.length name)%nat then false
  else if JsText.some_char code_char name then false
  else if JsString.truthy name && JsText.all_chars JsText.is_digit name then false
  else if JsString.startsWith name "http://"
          || JsString.startsWith name "https://" then false
  else if (20 <=? String.length name)%nat
          && JsText.all_chars JsText.is_hex name then false
  else if JsString.startsWith name "ChIJ" then false
  else if existsb (JsText.contains (JsString.toLowerCase name)) code_words
       then false
  else if negb (JsText.some_char JsText.is_letter name) then false
  else true.

(** The two variables [extractSearchResults] closes over: [seenNames] and
    [businesses]. *)
Record Found : Type := mkFound {
  seenNames : gset string;
  businesses : list BusinessInfo;
}.

Definition nothing : Found := {| seenNames := ∅; businesses := [] |}.

(** [addBusiness(info)] *)
Definition addBusiness (info : BusinessInfo) (f : Found) : Found :=
  if isValidBusinessName (name info) && negb (bool_decide (name info ∈ seenNames f))
  then {| seenNames := {[ name info ]} ∪ seenNames f;
          businesses := businesses f ++ [info] |}
  else f.

(** A run of [addBusiness] calls, in order. *)
Definition addAll (infos : list BusinessInfo) (f : Found) : Found :=
  foldl (fun acc info => addBusiness info acc) f infos.

Definition found_none (f : Found) : bool :=
  match businesses f with [] => true | _ => false end.

(** [extractSearchResults(html)], given the infos each strategy hands to
    [addBusiness] for this page: strategies 1 to 3 always run; strategy 4
    (two card patterns, the second only if the first added nothing), 5 and
    6 run only while nothing has been found. *)
Definition extractSearchResults (s1 s2 s3 s4a s4b s5 s6 : list BusinessInfo)
    : list BusinessInfo :=
  let f := addAll s3 (addAll s2 (addAll s1 nothing)) in
  let f :=
    if found_none f then
      let f := addAll s4a f in
      if negb (found_none f) then f else addAll s4b f
    else f in
  let f := if found_none f then addAll s5 f else f in
  let f := if found_none f then addAll s6 f else f in
  businesses f.

End Reviews.

(** ** Sample inputs for the scrapers *)

Module Samples.

(** The digits at the start of [s] as a number, from the value [acc] on. *)
Fixpoint digits (acc : option Z) (s : string) : option Z :=
  match s with
  | String c rest =>
      if JsText.is_digit c
      then digits (Some (10 * default 0 acc + Z.of_nat (Ascii.nat_of_ascii c) - 48)%Z)
                  rest
      else acc
  | EmptyString => acc
  end.

(** [parseInt(s, 10)] on strings without leading white space: an optional
    sign and the decimal digits that follow; [None] for [NaN]. *)
Definition parseInt (s : string) : option Z :=
  match s with
  | String "-"%char rest => Z.opp <$> digits None rest
  | String "+"%char rest => digits None rest
  | _ => digits None s
  end.

(** A network that answers every fetch with an OK page; the state counts
    the fetches. *)
Definition fetch_ok (url : string) (w : nat) : (Exn + Jobs.Page) * nat :=
  (inr {| Jobs.ok := true; Jobs.page_status := 200; Jobs.statusText := "OK";
          Jobs.page_text := inr "<html></html>" |}, S w).

(** A network that answers every fetch with 403. *)
Definition fetch_forbidden (url : string) (w : nat) : (Exn + Jobs.Page) * nat :=
  (inr {| Jobs.ok := false; Jobs.page_status := 403;
          Jobs.statusText := "Forbidden";
          Jobs.page_text := inr "blocked" |}, S w).

Definition show (z : Z) : string :=
  if (z =? 403)%Z then "403" else "200".

(** A parser that finds 25 listings, numbered from 1. *)
Definition parse25 (html : string) : list nat := seq 1 25.

Definition same (s : string) : string := s.

Definition midnight (w : nat) : string := "2026-01-01T00:00:00.000Z".

Definition no_sleep (ms : Z) (w : nat) : nat := w.

Definition as_text (e : Exn) : string := "Error".

Definition review (who : string) (stars : Z) (reply : option string)
    : Reviews.ReviewData :=
  {| Reviews.author := who; Reviews.rating := stars; Reviews.text := "text";
     Reviews.date := EmptyString; Reviews.relativeDate := None;
     Reviews.likes := 0; Reviews.ownerResponse := reply;
     Reviews.ownerResponseDate := None; Reviews.photos := [] |}.

Definition reviews : list Reviews.ReviewData :=
  [ review "Ann" 5 (Some "Thanks!"); review "Bob" 2 None; review "Cy" 4 None ].

Definition business (n : string) (addr : option string) : Reviews.BusinessInfo :=
  {| Reviews.name := n; Reviews.placeId := EmptyString;
     Reviews.avg_rating := JNull; Reviews.totalReviews := JNull;
     Reviews.address := addr; Reviews.phone := None; Reviews.website := None;
     Reviews.hours := JNull; Reviews.category := None;
     Reviews.categories := []; Reviews.priceLevel := None;
     Reviews.business_photos := []; Reviews.coordinates := JNull;
     Reviews.permanentlyClosed := false |}.

Definition candidates : list Reviews.BusinessInfo :=
  [ business "Joe's Pizza" None; business "12345" None;
    business "Joe's Pizza" (Some "7 Carmine St"); business "Luigi's" None ].

End Samples.

(** ** Facts about the string operations *)

Section Strings.

Import JsString.

Lemma append_nil (s : string) : EmptyString ++ s = s.
Proof. reflexivity. Qed.

Lemma append_cons (c : ascii) (s t : string) :
  String c s ++ t = String c (s ++ t).
Proof. reflexivity. Qed.

Lemma startsWith_spec (s p : string) :
  startsWith s p = true ↔ ∃ rest, s = p ++ rest.
Proof.
  revert s. induction p as [|a p IH]; intros s.
  - split; [intros _; by exists s | reflexivity].
  - destruct s as [|b s].
    + split; [discriminate | intros [rest H]; discriminate H].
    + change (startsWith (String b s) (String a p))
        with (Ascii.eqb a b && startsWith s p).
      rewrite andb_true_iff, Ascii.eqb_eq, IH. split.
      * intros [-> [rest ->]]. by exists rest.
      * intros [rest H]. rewrite append_cons in H.
        injection H as -> ->. eauto.
Qed.

Lemma substring_whole (s : string) :
  String.substring 0 (String.length s) s = s.
Proof. induction s as [|c s IH]; simpl; congruence. Qed.

Lemma substring_after (front p : string) :
  String.substring (String.length front) (String.length p) (front ++ p) = p.
Proof.
  induction front as [|c front IH].
  - rewrite append_nil. apply substring_whole.
  - rewrite append_cons. exact IH.
Qed.

Lemma length_append (s t : string) :
  String.length (s ++ t) = (String.length s + String.length t)%nat.
Proof.
  induction s as [|c s IH]; [reflexivity|].
  rewrite append_cons. simpl. congruence.
Qed.

Lemma substring_split (n : nat) (s : string) :
  (n ≤ String.length s)%nat →
  s = String.substring 0 n s ++ String.substring n (String.length s - n) s.
Proof.
  revert s. induction n as [|n IH]; intros s Hn.
  - rewrite Nat.sub_0_r, substring_whole.
    destruct s; reflexivity.
  - destruct s as [|c s]; simpl in *; [lia|].
    rewrite append_cons. f_equal. apply IH. lia.
Qed.

Lemma length_substring_0 (n : nat) (s : string) :
  (n ≤ String.length s)%nat → String.length (String.substring 0 n s) = n.
Proof.
  revert s. induction n as [|n IH]; intros s Hn; simpl.
  - destruct s; reflexivity.
  - destruct s as [|c s]; simpl in *; [lia|]. f_equal. apply IH. lia.
Qed.

Lemma endsWith_spec (s p : string) :
  endsWith s p = true ↔ ∃ front, s = front ++ p.
Proof.
  unfold endsWith. rewrite andb_true_iff, Nat.leb_le, String.eqb_eq. split.
  - intros [Hlen Hsub].
    exists (String.substring 0 (String.length s - String.length p) s).
    pose proof (substring_split (String.length s - String.length p) s) as E.
    replace (String.length s - (String.length s - String.length p))%nat
      with (String.length p) in E by lia.
    rewrite Hsub in E. apply E. lia.
  - intros [front ->]. rewrite length_append. split; [lia|].
    replace (String.length front + String.length p - String.length p)%nat
      with (String.length front) by lia.
    apply substring_after.
Qed.

Lemma includes_http (x : string) :
  includes ["http:"; "https:"] x = false ↔ x ≠ "http:" ∧ x ≠ "https:".
Proof.
  unfold includes. simpl. rewrite !orb_false_r, orb_false_iff.
  rewrite !String.eqb_neq. reflexivity.
Qed.

End Strings.

(** ** The block list, in words *)

Lemma private_host_spec (host : string) :
  Service.private_host host = true ↔ Claims.on_block_list host.
Proof.
  unfold Service.private_host, Claims.on_block_list.
  rewrite !orb_true_iff, !String.eqb_eq, !startsWith_spec, !endsWith_spec.
  tauto.
Qed.

Lemma guard_decision (parsed : URL) :
  negb (JsString.includes ["http:"; "https:"] (protocol parsed))
  || Service.private_host (JsString.toLowerCase (hostname parsed)) = true
  ↔ Claims.ssrf_blocked parsed.
Proof.
  unfold Claims.ssrf_blocked, Claims.other_scheme.
  rewrite orb_true_iff, negb_true_iff, includes_http, private_host_spec.
  reflexivity.
Qed.

(** ** The handler, step by step *)

Section Steps.

Import Service Claims.

Context {St : Type}.
Variable d : Imports St.

Abbreviation validateUrl := (Service.validateUrl (URL_parse d)).
Abbreviation fetchStep :=
  (Service.fetchStep (getProxy d) (proxyFetch d) (invalidHeader d)).
Abbreviation inputStep :=
  (Service.inputStep (getProxy d) (proxyFetch d) (URL_parse d)
     (invalidHeader d)).
Abbreviation verifyStep :=
  (Service.verifyStep (verifyPayment d) (getProxy d) (proxyFetch d) (URL_parse d)
     (invalidHeader d)).

Lemma handle_unconfigured (st : St) (c : Ctx) :
  not_ (env d "WALLET_ADDRESS") = true →
  handle d st c =
    (inr {| status := 500; headers := [];
            body := JObject [ ("error",
              JString "Service misconfigured: WALLET_ADDRESS not set") ] |},
     {| store := st; trace := []; resHeaders := [] |}).
Proof. intros H. unfold handle, serve, run. rewrite H. reflexivity. Qed.

Lemma handle_unpaid (st : St) (c : Ctx) (w : string) :
  configured d w → extractPayment d c = None →
  handle d st c =
    (inr {| status := 402; headers := [];
            body := build402Response d "/api/run" DESCRIPTION PRICE_USDC w
                      OUTPUT_SCHEMA |},
     {| store := st; trace := []; resHeaders := [] |}).
Proof.
  intros [Henv Hw] Hpay. unfold handle, serve, run.
  rewrite Henv, Hpay. unfold not_. rewrite Hw. reflexivity.
Qed.

Lemma handle_paid (st : St) (c : Ctx) (w : string) (p : Payment) :
  configured d w → extractPayment d c = Some p →
  handle d st c =
    verifyStep c p w {| store := st; trace := []; resHeaders := [] |}.
Proof.
  intros [Henv Hw] Hpay. unfold handle, serve, run.
  rewrite Henv, Hpay. unfold not_. rewrite Hw. reflexivity.
Qed.

Lemma verifyStep_throws (c : Ctx) (p : Payment) (w : string) (s : Sys St)
    (e : Exn) (st' : St) :
  verifyPayment d p w PRICE_USDC (store s) = (inl e, st') →
  verifyStep c p w s =
    (inl e, {| store := st';
               trace := trace s ++ [EvVerifyPayment p w PRICE_USDC];
               resHeaders := resHeaders s |}).
Proof.
  intros H. unfold Service.verifyStep, bind, call. rewrite H. reflexivity.
Qed.

Lemma verifyStep_invalid (c : Ctx) (p : Payment) (w : string) (s : Sys St)
    (v : Verification) (st' : St) :
  verifyPayment d p w PRICE_USDC (store s) = (inr v, st') →
  valid v = false →
  verifyStep c p w s =
    (inr {| status := 402; headers := resHeaders s;
            body := JObject
              [ ("error", JString "Payment verification failed");
                ("reason", error v);
                ("hint", JString
                   "Ensure the transaction is confirmed and sends the correct USDC amount to the recipient wallet.") ] |},
     {| store := st';
        trace := trace s ++ [EvVerifyPayment p w PRICE_USDC];
        resHeaders := resHeaders s |}).
Proof.
  intros H Hv. unfold Service.verifyStep, bind, call.
  rewrite H, Hv. reflexivity.
Qed.

Lemma verifyStep_valid (c : Ctx) (p : Payment) (w : string) (s : Sys St)
    (v : Verification) (st' : St) :
  verifyPayment d p w PRICE_USDC (store s) = (inr v, st') →
  valid v = true →
  verifyStep c p w s =
    inputStep c p v
      {| store := st';
         trace := trace s ++ [EvVerifyPayment p w PRICE_USDC];
         resHeaders := resHeaders s |}.
Proof.
  intros H Hv. unfold Service.verifyStep, bind, call.
  rewrite H, Hv. reflexivity.
Qed.

Lemma inputStep_no_url (c : Ctx) (p : Payment) (v : Verification) (s : Sys St) :
  not_ (req_query c "url") = true →
  inputStep c p v s =
    (inr {| status := 400; headers := resHeaders s;
            body := JObject [ ("error",
              JString "Missing required parameter: ?url=<target_url>") ] |},
     s).
Proof. intros H. unfold Service.inputStep. rewrite H. reflexivity. Qed.

Lemma inputStep_unparsed (c : Ctx) (p : Payment) (v : Verification)
    (s : Sys St) (url : string) :
  asks c url → URL_parse d url = None →
  inputStep c p v s =
    (inr {| status := 400; headers := resHeaders s;
            body := JObject [ ("error", JString "Invalid URL format") ] |},
     s).
Proof.
  intros [Hq Ht] Hp.
  unfold Service.inputStep, Service.validateUrl, not_, bind.
  rewrite Hq, Ht. cbn [negb from_option id]. rewrite Hp. reflexivity.
Qed.

Lemma inputStep_blocked (c : Ctx) (p : Payment) (v : Verification)
    (s : Sys St) (url : string) (parsed : URL) :
  asks c url → URL_parse d url = Some parsed → ssrf_blocked parsed →
  ∃ msg,
    inputStep c p v s =
      (inr {| status := 400; headers := resHeaders s;
              body := JObject [ ("error", JString msg) ] |},
       s).
Proof.
  intros [Hq Ht] Hp Hb. apply guard_decision in Hb.
  unfold Service.inputStep, Service.validateUrl, not_, bind.
  rewrite Hq, Ht. cbn [negb from_option id]. rewrite Hp.
  destruct (negb (JsString.includes _ _)); cbn [orb] in Hb.
  - eexists. reflexivity.
  - rewrite Hb. eexists. reflexivity.
Qed.

Lemma inputStep_passed (c : Ctx) (p : Payment) (v : Verification)
    (s : Sys St) (url : string) (parsed : URL) :
  asks c url → URL_parse d url = Some parsed → ¬ ssrf_blocked parsed →
  inputStep c p v s = fetchStep p v url s.
Proof.
  intros [Hq Ht] Hp Hb. rewrite <- guard_decision in Hb.
  apply not_true_is_false, orb_false_iff in Hb as [Hb1 Hb2].
  unfold Service.inputStep, Service.validateUrl, not_, bind.
  rewrite Hq, Ht. cbn [negb from_option id]. rewrite Hp, Hb1, Hb2.
  reflexivity.
Qed.

End Steps.

(** ** Header values *)

Lemma accepts_true : Headers.accepts "true" = true.
Proof. reflexivity. Qed.

Lemma is_value_spec (value : string) :
  Headers.is_value value = true →
  Headers.normalize value = value ∧ Headers.accepts value = true.
Proof.
  unfold Headers.is_value, Headers.accepts.
  intros [Heq Hclean]%andb_true_iff. apply String.eqb_eq in Heq.
  by rewrite Heq.
Qed.

Section FetchStep.

Import Service Claims.

Context {St : Type}.
Variable d : Imports St.

Abbreviation fetchStep :=
  (Service.fetchStep (getProxy d) (proxyFetch d) (invalidHeader d)).

(** The body of the 502 response for a thrown [e]. *)
Abbreviation failure e :=
  (JObject
     [ ("error", JString "Service execution failed");
       ("message", message e);
       ("hint", JString
          "The target URL may be unreachable or the proxy may be temporarily unavailable.") ]).

Lemma fetchStep_proxy_throws (p : Payment) (v : Verification) (url : string)
    (s : Sys St) (e : Exn) (st1 : St) :
  getProxy d (store s) = (inl e, st1) →
  fetchStep p v url s =
    (inr {| status := 502; headers := resHeaders s; body := failure e |},
     {| store := st1; trace := trace s ++ [EvGetProxy];
        resHeaders := resHeaders s |}).
Proof.
  intros H. unfold Service.fetchStep, try_catch, bind, call.
  rewrite H. reflexivity.
Qed.

Lemma fetchStep_fetch_throws (p : Payment) (v : Verification) (url : string)
    (s : Sys St) (proxy : ProxyConfig) (e : Exn) (st1 st2 : St) :
  getProxy d (store s) = (inr proxy, st1) →
  proxyFetch d url st1 = (inl e, st2) →
  fetchStep p v url s =
    (inr {| status := 502; headers := resHeaders s; body := failure e |},
     {| store := st2;
        trace := (trace s ++ [EvGetProxy]) ++ [EvProxyFetch url];
        resHeaders := resHeaders s |}).
Proof.
  intros H1 H2. unfold Service.fetchStep, try_catch, bind, call.
  rewrite H1. cbn [store trace resHeaders]. rewrite H2. reflexivity.
Qed.

Lemma fetchStep_body_throws (p : Payment) (v : Verification) (url : string)
    (s : Sys St) (proxy : ProxyConfig) (r : FetchResponse) (e : Exn)
    (st1 st2 : St) :
  getProxy d (store s) = (inr proxy, st1) →
  proxyFetch d url st1 = (inr r, st2) →
  fr_text r = inl e →
  fetchStep p v url s =
    (inr {| status := 502; headers := resHeaders s; body := failure e |},
     {| store := st2;
        trace := ((trace s ++ [EvGetProxy]) ++ [EvProxyFetch url])
                   ++ [EvReadBody];
        resHeaders := resHeaders s |}).
Proof.
  intros H1 H2 H3. unfold Service.fetchStep, try_catch, bind, await, call.
  rewrite H1. cbn [store trace resHeaders]. rewrite H2.
  cbn [store trace resHeaders]. rewrite H3. reflexivity.
Qed.

Lemma fetchStep_ok (p : Payment) (v : Verification) (url : string)
    (s : Sys St) (proxy : ProxyConfig) (r : FetchResponse) (text : string)
    (st1 st2 : St) :
  getProxy d (store s) = (inr proxy, st1) →
  proxyFetch d url st1 = (inr r, st2) →
  fr_text r = inr text →
  resHeaders s = [] →
  Headers.accepts (txHash p) = true →
  fetchStep p v url s =
    (inr {| status := 200;
            headers := [ ("X-Payment-Settled", "true");
                         ("X-Payment-TxHash", Headers.normalize (txHash p)) ];
            body := JObject
              [ ("url", JString url);
                ("status", JNumber (inject_Z (fr_status r)));
                ("text", JString
                   (if (50000 <? String.length text)%nat
                    then String.substring 0 50000 text else text));
                ("contentLength",
                 JNumber (inject_Z (Z.of_nat (String.length text))));
                ("proxy", JObject [ ("country", country proxy);
                                    ("type", JString "mobile") ]);
                ("payment", JObject
                   [ ("txHash", JString (txHash p));
                     ("network", JString (network_name (network p)));
                     ("amount", amount v);
                     ("settled", JBool true) ]) ] |},
     {| store := st2;
        trace := ((trace s ++ [EvGetProxy]) ++ [EvProxyFetch url])
                   ++ [EvReadBody];
        resHeaders := [ ("X-Payment-Settled", "true");
                        ("X-Payment-TxHash", Headers.normalize (txHash p)) ] |}).
Proof.
  intros H1 H2 H3 H4 H5.
  unfold Service.fetchStep, try_catch, bind, await, call, c_header, c_json.
  rewrite H1. cbn [store trace resHeaders]. rewrite H2.
  cbn [store trace resHeaders]. rewrite H3, H4, accepts_true.
  cbn [store trace resHeaders]. rewrite H5. reflexivity.
Qed.

(** The second [c.header] throws inside the [try]: the catch block sends
    the 502 with the header that was set before. *)
Lemma fetchStep_header_throws (p : Payment) (v : Verification) (url : string)
    (s : Sys St) (proxy : ProxyConfig) (r : FetchResponse) (text : string)
    (st1 st2 : St) :
  getProxy d (store s) = (inr proxy, st1) →
  proxyFetch d url st1 = (inr r, st2) →
  fr_text r = inr text →
  resHeaders s = [] →
  Headers.accepts (txHash p) = false →
  fetchStep p v url s =
    (inr {| status := 502;
            headers := [ ("X-Payment-Settled", "true") ];
            body := failure (invalidHeader d "X-Payment-TxHash" (txHash p)) |},
     {| store := st2;
        trace := ((trace s ++ [EvGetProxy]) ++ [EvProxyFetch url])
                   ++ [EvReadBody];
        resHeaders := [ ("X-Payment-Settled", "true") ] |}).
Proof.
  intros H1 H2 H3 H4 H5.
  unfold Service.fetchStep, try_catch, bind, await, call, c_header, c_json.
  rewrite H1. cbn [store trace resHeaders]. rewrite H2.
  cbn [store trace resHeaders]. rewrite H3, H4, accepts_true.
  cbn [store trace resHeaders]. rewrite H5. reflexivity.
Qed.

End FetchStep.

(** ** The responses of the handler *)

Import Service Claims.

(** C8. When [WALLET_ADDRESS] is unset the handler answers 500 with the
    misconfiguration error before any other work: no collaborator is
    called, the process state is unchanged, and the result is a response,
    not a thrown error. *)
Theorem unset_wallet_500 {St : Type} (d : Imports St) (st : St) (c : Ctx) :
  env d "WALLET_ADDRESS" = None →
  handle d st c =
    (inr {| status := 500; headers := [];
            body := JObject [ ("error",
              JString "Service misconfigured: WALLET_ADDRESS not set") ] |},
     {| store := st; trace := []; resHeaders := [] |}).
Proof. intros H. apply handle_unconfigured. rewrite H. reflexivity. Qed.

Lemma unset_wallet_500_witness :
  handle Demo.imports_unset Demo.world (Demo.request (Some "https://example.com")) =
    (inr {| status := 500; headers := [];
            body := JObject [ ("error",
              JString "Service misconfigured: WALLET_ADDRESS not set") ] |},
     {| store := Demo.world; trace := []; resHeaders := [] |}).
Proof. apply unset_wallet_500. reflexivity. Defined.

(** C5. A request without a payment claim is answered 402 with the payment
    instructions built by [build402Response] from the endpoint, the
    description, the price, the wallet and the output schema; nothing is
    verified and nothing is fetched. With the instructions of the
    specification the body holds price, wallet, networks, endpoint,
    description and schema. *)
Theorem missing_payment_402 {St : Type} (d : Imports St) (st : St) (c : Ctx)
    (w : string) :
  configured d w → extractPayment d c = None →
  handle d st c =
    (inr {| status := 402; headers := [];
            body := build402Response d "/api/run" DESCRIPTION PRICE_USDC w
                      OUTPUT_SCHEMA |},
     {| store := st; trace := []; resHeaders := [] |}) ∧
  no_verify (handle d st c) ∧ no_fetch (handle d st c) ∧
  (build402Response d = Gate.build402Response →
   ∃ resp, (handle d st c).1 = inr resp ∧ status resp = 402 ∧
     wire_keys (body resp) =
       ["price"; "wallet"; "networks"; "endpoint"; "description"; "schema"] ∧
     get_field "price" (body resp) = Some (JNumber PRICE_USDC) ∧
     get_field "wallet" (body resp) = Some (JString w) ∧
     get_field "networks" (body resp) =
       Some (JArray [JString "solana"; JString "base"]) ∧
     get_field "endpoint" (body resp) = Some (JString "/api/run") ∧
     get_field "description" (body resp) = Some (JString DESCRIPTION) ∧
     get_field "schema" (body resp) = Some OUTPUT_SCHEMA).
Proof.
  intros Hw Hpay. pose proof (handle_unpaid d st c w Hw Hpay) as E.
  split; [exact E|]. unfold no_verify, no_fetch. rewrite E.
  split; [constructor|]. split; [constructor|].
  intros Hb. eexists. split; [reflexivity|]. cbn [status body].
  rewrite Hb. repeat split.
Qed.

Lemma missing_payment_402_witness :
  ∃ resp,
    (handle Demo.imports Demo.world (Demo.request_unpaid None)).1 = inr resp ∧
    status resp = 402 ∧
    get_field "wallet" (body resp) = Some (JString Demo.wallet).
Proof.
  destruct (missing_payment_402 Demo.imports Demo.world
              (Demo.request_unpaid None) Demo.wallet)
    as (_ & _ & _ & H).
  - split; reflexivity.
  - reflexivity.
  - destruct (H eq_refl) as (resp & H1 & H2 & _ & _ & H3 & _).
    exists resp. auto.
Defined.

(** C4. When verification returns a result that is not valid, the handler
    answers 402 with an object of exactly the properties error, reason and
    hint, the reason being the verifier's error; the three are on the wire
    whenever that error is defined. Nothing is fetched: the only call made
    is the verification itself. *)
Theorem failed_verification_402 {St : Type} (d : Imports St) (st st' : St)
    (c : Ctx) (w : string) (p : Payment) (v : Verification) :
  verifies d st c w p v st' → valid v = false →
  ∃ resp,
    handle d st c =
      (inr resp, {| store := st'; trace := [EvVerifyPayment p w PRICE_USDC];
                    resHeaders := [] |}) ∧
    status resp = 402 ∧
    object_keys (body resp) = ["error"; "reason"; "hint"] ∧
    get_field "error" (body resp) = Some (JString "Payment verification failed") ∧
    get_field "reason" (body resp) = Some (error v) ∧
    (is_undefined (error v) = false →
     wire_keys (body resp) = ["error"; "reason"; "hint"]) ∧
    no_fetch (handle d st c).
Proof.
  intros (Hw & Hpay & Hver) Hv.
  pose proof (handle_paid d st c w p Hw Hpay) as E.
  rewrite (verifyStep_invalid d c p w
             {| store := st; trace := []; resHeaders := [] |} v st' Hver Hv) in E.
  eexists. split; [exact E|]. cbn [status body].
  repeat split.
  - intros Hu. destruct (error v); try discriminate Hu; reflexivity.
  - unfold no_fetch. rewrite E. repeat constructor.
Qed.

Lemma failed_verification_402_witness :
  ∃ resp,
    (handle Demo.imports Demo.world_unpaid
       (Demo.request (Some "https://example.com"))).1 = inr resp ∧
    status resp = 402 ∧
    wire_keys (body resp) = ["error"; "reason"; "hint"].
Proof.
  destruct (failed_verification_402 Demo.imports Demo.world_unpaid
              Demo.world_unpaid (Demo.request (Some "https://example.com"))
              Demo.wallet Demo.claim
              {| valid := false; error := JString "Pending";
                 amount := JUndefined |})
    as (resp & E & Hs & _ & _ & _ & Hk & _).
  - repeat split.
  - reflexivity.
  - exists resp. rewrite E. auto.
Defined.

(** The state of a request right after its claim was verified. *)
Abbreviation verified_at st' p w :=
  {| store := st'; trace := [EvVerifyPayment p w PRICE_USDC];
     resHeaders := [] |}.

Lemma handle_verified {St : Type} (d : Imports St) (st st' : St) (c : Ctx)
    (w : string) (p : Payment) (v : Verification) :
  verifies d st c w p v st' → valid v = true →
  handle d st c =
    Service.inputStep (getProxy d) (proxyFetch d) (URL_parse d)
      (invalidHeader d) c p v (verified_at st' p w).
Proof.
  intros (Hw & Hpay & Hver) Hv.
  rewrite (handle_paid d st c w p Hw Hpay).
  apply (verifyStep_valid d c p w
           {| store := st; trace := []; resHeaders := [] |} v st' Hver Hv).
Qed.

Lemma handle_cleared {St : Type} (d : Imports St) (st st' : St) (c : Ctx)
    (w : string) (p : Payment) (v : Verification) (url : string) :
  cleared d st c w p v st' url →
  handle d st c =
    Service.fetchStep (getProxy d) (proxyFetch d) (invalidHeader d) p v url
      {| store := st'; trace := [EvVerifyPayment p w PRICE_USDC];
         resHeaders := [] |}.
Proof.
  intros (Hver & Hv & Hq & parsed & Hp & Hb).
  rewrite (handle_verified d st st' c w p v Hver Hv).
  apply (inputStep_passed d c p v _ url parsed Hq Hp Hb).
Qed.

(** C6. A request that passes verification and URL validation and whose
    fetch succeeds is answered 200 with [X-Payment-Settled: true] and
    [X-Payment-TxHash] set to the claim's transaction hash, next to the
    handler's own payload. The transaction hash is taken to be a header
    value, as a string read from a request header is: [c.header] stores
    any other string stripped of its outer whitespace, or throws. *)
Theorem success_200_settled {St : Type} (d : Imports St) (st st' st1 st2 : St)
    (c : Ctx) (w : string) (p : Payment) (v : Verification) (url : string)
    (proxy : ProxyConfig) (r : FetchResponse) (text : string) :
  cleared d st c w p v st' url →
  getProxy d st' = (inr proxy, st1) →
  proxyFetch d url st1 = (inr r, st2) →
  fr_text r = inr text →
  Headers.is_value (txHash p) = true →
  ∃ resp,
    (handle d st c).1 = inr resp ∧
    status resp = 200 ∧
    header_of resp "X-Payment-Settled" = Some "true" ∧
    header_of resp "X-Payment-TxHash" = Some (txHash p) ∧
    wire_keys (body resp) =
      ["url"; "status"; "text"; "contentLength"; "proxy"; "payment"] ∧
    get_field "url" (body resp) = Some (JString url) ∧
    get_field "status" (body resp) = Some (JNumber (inject_Z (fr_status r))) ∧
    get_field "payment" (body resp) =
      Some (JObject [ ("txHash", JString (txHash p));
                      ("network", JString (network_name (network p)));
                      ("amount", amount v);
                      ("settled", JBool true) ]).
Proof.
  intros Hc H1 H2 H3 [Hsame Hok]%is_value_spec.
  rewrite (handle_cleared d st st' c w p v url Hc).
  rewrite (fetchStep_ok d p v url (verified_at st' p w) proxy r text st1 st2
             H1 H2 H3 eq_refl Hok).
  rewrite Hsame.
  eexists. split; [reflexivity|]. cbn [status body]. repeat split.
Qed.

Lemma example_com_not_blocked :
  ¬ ssrf_blocked {| protocol := "https:"; hostname := "example.com" |}.
Proof. rewrite <- guard_decision. vm_compute. discriminate. Qed.

Lemma demo_cleared (f : string → Gate.World → (Exn + FetchResponse) * Gate.World) :
  cleared (Demo.imports_with Demo.env f) Demo.world
    (Demo.request (Some "https://example.com")) Demo.wallet Demo.claim
    Demo.verified Demo.world_paid "https://example.com".
Proof.
  repeat split.
  exists {| protocol := "https:"; hostname := "example.com" |}.
  split; [reflexivity | exact example_com_not_blocked].
Qed.

Lemma success_200_settled_witness :
  ∃ resp,
    (handle Demo.imports Demo.world
       (Demo.request (Some "https://example.com"))).1 = inr resp ∧
    status resp = 200 ∧
    header_of resp "X-Payment-Settled" = Some "true" ∧
    header_of resp "X-Payment-TxHash" = Some "tx-1".
Proof.
  destruct (success_200_settled Demo.imports Demo.world Demo.world_paid
              Demo.world_paid Demo.world_paid
              (Demo.request (Some "https://example.com")) Demo.wallet
              Demo.claim Demo.verified "https://example.com"
              {| country := JString "US" |}
              {| fr_status := 200; fr_text := inr "<html>hello</html>" |}
              "<html>hello</html>")
    as (resp & E & Hs & H1 & H2 & _).
  - apply demo_cleared.
  - reflexivity.
  - reflexivity.
  - reflexivity.
  - reflexivity.
  - exists resp. auto.
Defined.

(** C7. When [proxyFetch] throws (its retries are spent), or reading the
    body of its response throws, the handler answers 502 with an error
    body carrying the message of the thrown error; the settlement headers
    are not set. *)
Theorem failed_fetch_502 {St : Type} (d : Imports St) (st st' st1 st2 : St)
    (c : Ctx) (w : string) (p : Payment) (v : Verification) (url : string)
    (proxy : ProxyConfig) (e : Exn) :
  cleared d st c w p v st' url →
  getProxy d st' = (inr proxy, st1) →
  (proxyFetch d url st1 = (inl e, st2) ∨
   ∃ r, proxyFetch d url st1 = (inr r, st2) ∧ fr_text r = inl e) →
  ∃ resp,
    (handle d st c).1 = inr resp ∧
    status resp = 502 ∧
    object_keys (body resp) = ["error"; "message"; "hint"] ∧
    get_field "error" (body resp) = Some (JString "Service execution failed") ∧
    get_field "message" (body resp) = Some (message e) ∧
    headers resp = [] ∧
    header_of resp "X-Payment-Settled" = None.
Proof.
  intros Hc H1 H2. rewrite (handle_cleared d st st' c w p v url Hc).
  destruct H2 as [H2 | (r & H2 & H3)].
  - rewrite (fetchStep_fetch_throws d p v url (verified_at st' p w) proxy e
               st1 st2 H1 H2).
    eexists. split; [reflexivity|]. repeat split.
  - rewrite (fetchStep_body_throws d p v url (verified_at st' p w) proxy r e
               st1 st2 H1 H2 H3).
    eexists. split; [reflexivity|]. repeat split.
Qed.

Lemma failed_fetch_502_witness :
  ∃ resp,
    (handle Demo.imports_down Demo.world
       (Demo.request (Some "https://example.com"))).1 = inr resp ∧
    status resp = 502 ∧
    get_field "message" (body resp) =
      Some (JString "Proxy fetch failed after 3 attempts").
Proof.
  destruct (failed_fetch_502 Demo.imports_down Demo.world Demo.world_paid
              Demo.world_paid Demo.world_paid
              (Demo.request (Some "https://example.com")) Demo.wallet
              Demo.claim Demo.verified "https://example.com"
              {| country := JString "US" |}
              {| message := JString "Proxy fetch failed after 3 attempts" |})
    as (resp & E & Hs & _ & _ & Hm & _).
  - apply demo_cleared.
  - reflexivity.
  - left. reflexivity.
  - exists resp. auto.
Defined.

(** C10. In a successful response the [text] field is the fetched body cut
    to at most 50000 characters: the body itself when it is no longer than
    that, otherwise its first 50000 characters; [contentLength] is the
    length of the whole body. Once the body is read the response is
    successful exactly when [c.header] takes the transaction hash. *)
Theorem text_capped_length_full {St : Type} (d : Imports St)
    (st st' st1 st2 : St) (c : Ctx) (w : string) (p : Payment)
    (v : Verification) (url : string) (proxy : ProxyConfig)
    (r : FetchResponse) (text : string) :
  cleared d st c w p v st' url →
  getProxy d st' = (inr proxy, st1) →
  proxyFetch d url st1 = (inr r, st2) →
  fr_text r = inr text →
  ∃ resp,
    (handle d st c).1 = inr resp ∧
    (status resp = 200%nat ↔ Headers.accepts (txHash p) = true) ∧
    (status resp = 200%nat →
     ∃ t,
       get_field "text" (body resp) = Some (JString t) ∧
       get_field "contentLength" (body resp) =
         Some (JNumber (inject_Z (Z.of_nat (String.length text)))) ∧
       (String.length t ≤ 50000)%nat ∧
       ((String.length text ≤ 50000)%nat → t = text) ∧
       ((50000 < String.length text)%nat →
          t = String.substring 0 50000 text ∧ String.length t = 50000%nat) ∧
       ∃ rest, text = t ++ rest).
Proof.
  intros Hc H1 H2 H3. rewrite (handle_cleared d st st' c w p v url Hc).
  destruct (Headers.accepts (txHash p)) eqn:Hok.
  2: { rewrite (fetchStep_header_throws d p v url (verified_at st' p w) proxy
                  r text st1 st2 H1 H2 H3 eq_refl Hok).
       eexists. split; [reflexivity|]. cbn [status]. split; [|discriminate].
       split; discriminate. }
  rewrite (fetchStep_ok d p v url (verified_at st' p w) proxy r text st1 st2
             H1 H2 H3 eq_refl Hok).
  eexists. split; [reflexivity|]. cbn [status body]. split; [done|].
  intros _. eexists. split; [reflexivity|]. split; [reflexivity|].
  destruct (50000 <? String.length text)%nat eqn:Hlen.
  - apply Nat.ltb_lt in Hlen.
    assert (String.length (String.substring 0 50000 text) = 50000%nat) as Hcut
      by (apply length_substring_0; lia).
    repeat split; try lia.
    exists (String.substring 50000 (String.length text - 50000) text).
    apply substring_split. lia.
  - apply Nat.ltb_ge in Hlen. repeat split; try lia.
    exists EmptyString. clear. induction text as [|a text IH]; [reflexivity|].
    rewrite append_cons. congruence.
Qed.

Lemma text_capped_length_full_witness :
  ∃ resp,
    (handle (Demo.imports_page 7) Demo.world
       (Demo.request (Some "https://example.com"))).1 = inr resp ∧
    get_field "text" (body resp) = Some (JString "aaaaaaa") ∧
    get_field "contentLength" (body resp) = Some (JNumber 7).
Proof.
  destruct (text_capped_length_full (Demo.imports_page 7) Demo.world
              Demo.world_paid Demo.world_paid Demo.world_paid
              (Demo.request (Some "https://example.com")) Demo.wallet
              Demo.claim Demo.verified "https://example.com"
              {| country := JString "US" |}
              {| fr_status := 200; fr_text := inr (Demo.page 7) |}
              (Demo.page 7))
    as (resp & E & [_ Hok] & Hfacts).
  - apply demo_cleared.
  - reflexivity.
  - reflexivity.
  - reflexivity.
  - destruct (Hfacts (Hok eq_refl)) as (t & Ht & Hn & _ & Hsame & _).
    exists resp. rewrite Hsame in Ht; [auto|].
    apply Nat.leb_le. vm_compute. reflexivity.
Defined.

(** Step 4 answers 200 or 502, and only extends the trace. *)
Lemma fetchStep_outcome {St : Type} (d : Imports St) (p : Payment)
    (v : Verification) (url : string) (s : Sys St) :
  ∃ resp s' more,
    Service.fetchStep (getProxy d) (proxyFetch d) (invalidHeader d) p v url s
      = (inr resp, s') ∧
    (status resp = 200 ∨ status resp = 502) ∧
    (trace s' = trace s ++ more)%list.
Proof.
  unfold Service.fetchStep, try_catch, bind, await, call, c_header, c_json, ret.
  destruct (getProxy d (store s)) as [[e|proxy] st1]; cbn [store trace resHeaders].
  { eexists _, _, _. split; [reflexivity|]. split; [by right | reflexivity]. }
  destruct (proxyFetch d url st1) as [[e|r] st2]; cbn [store trace resHeaders].
  { eexists _, _, [_; _]. split; [reflexivity|].
    split; [by right|]. cbn [trace]. by rewrite <- app_assoc. }
  destruct (fr_text r) as [e|text]; cbn [store trace resHeaders].
  { eexists _, _, [_; _; _]. split; [reflexivity|].
    split; [by right|]. cbn [trace]. by rewrite <- !app_assoc. }
  rewrite accepts_true. cbn [store trace resHeaders].
  destruct (Headers.accepts (txHash p)); cbn [store trace resHeaders].
  - eexists _, _, [_; _; _]. split; [reflexivity|].
    split; [by left|]. cbn [trace]. by rewrite <- !app_assoc.
  - eexists _, _, [_; _; _]. split; [reflexivity|].
    split; [by right|]. cbn [trace]. by rewrite <- !app_assoc.
Qed.

(** C3. Once a request has reached URL validation with a URL that parses,
    the guard rejects it (status 400, a body holding just [error], nothing
    fetched) exactly when the scheme is neither http nor https or the
    lower-cased host name is on the block list; for a host name already in
    lower case, as [URL] yields them, that is the host name itself. In
    particular the readings of
    [http://127.0.0.1/], [http://169.254.169.254/latest/meta-data] and
    [https://svc.internal] are rejected and that of [https://example.com]
    is not. *)
Theorem ssrf_guard_exact {St : Type} (d : Imports St) (st st' : St) (c : Ctx)
    (w : string) (p : Payment) (v : Verification) (url : string)
    (parsed : URL) :
  verifies d st c w p v st' → valid v = true →
  asks c url → URL_parse d url = Some parsed →
  (rejected (handle d st c) ↔ ssrf_blocked parsed) ∧
  (JsString.toLowerCase (hostname parsed) = hostname parsed →
   (rejected (handle d st c) ↔
    other_scheme parsed ∨ on_block_list (hostname parsed))) ∧
  (parsed ∈ [ {| protocol := "http:"; hostname := "127.0.0.1" |};
              {| protocol := "http:"; hostname := "169.254.169.254" |};
              {| protocol := "https:"; hostname := "svc.internal" |} ] →
   rejected (handle d st c)) ∧
  (parsed = {| protocol := "https:"; hostname := "example.com" |} →
   ¬ rejected (handle d st c)).
Proof.
  intros Hver Hv Hq Hp.
  assert (rejected (handle d st c) ↔ ssrf_blocked parsed) as Hiff.
  { rewrite (handle_verified d st st' c w p v Hver Hv).
    split.
    - intros [(resp & E & Hs & _) _].
      destruct (guard_decision parsed) as [Hdec _].
      destruct (negb (JsString.includes ["http:"; "https:"] (protocol parsed))
                || private_host (JsString.toLowerCase (hostname parsed)))
        eqn:Hb; [by apply Hdec|].
      assert (¬ ssrf_blocked parsed) as Hnb
        by (rewrite <- guard_decision; congruence).
      rewrite (inputStep_passed d c p v (verified_at st' p w) url parsed
                 Hq Hp Hnb) in E.
      destruct (fetchStep_outcome d p v url (verified_at st' p w))
        as (resp' & s' & more & E' & Hst & _).
      rewrite E' in E. cbn [fst] in E. injection E as ->. lia.
    - intros Hb.
      destruct (inputStep_blocked d c p v (verified_at st' p w) url parsed
                  Hq Hp Hb) as (msg & E).
      rewrite E. split.
      + eexists. split; [reflexivity|]. split; reflexivity.
      + unfold no_fetch. cbn [snd trace]. repeat constructor. }
  split; [exact Hiff|]. split; [|split].
  - intros Hlow. rewrite Hiff. unfold ssrf_blocked. by rewrite Hlow.
  - intros Hin. apply Hiff. rewrite <- guard_decision.
    rewrite !elem_of_cons in Hin.
    destruct Hin as [-> | [-> | [-> | Hin]]];
      [reflexivity | reflexivity | reflexivity | by apply elem_of_nil in Hin].
  - intros -> Hr. apply Hiff in Hr. exact (example_com_not_blocked Hr).
Qed.

Lemma ssrf_guard_exact_witness :
  rejected (handle Demo.imports Demo.world
              (Demo.request (Some "http://127.0.0.1/"))).
Proof.
  destruct (ssrf_guard_exact Demo.imports Demo.world Demo.world_paid
              (Demo.request (Some "http://127.0.0.1/")) Demo.wallet Demo.claim
              Demo.verified "http://127.0.0.1/"
              {| protocol := "http:"; hostname := "127.0.0.1" |})
    as (_ & _ & H & _).
  - repeat split.
  - reflexivity.
  - split; reflexivity.
  - reflexivity.
  - apply H. rewrite elem_of_cons. by left.
Defined.

(** ** The gate of the specification under the handler *)

Lemma gate_valid_consumes (p : Payment) (recipient : string) (price : Q)
    (w w' : Gate.World) (v : Verification) :
  Gate.verifyPayment p recipient price w = (inr v, w') → valid v = true →
  Gate.seen w !! (network p, txHash p) = None ∧
  w' = {| Gate.chain := Gate.chain w; Gate.clock := Gate.clock w;
          Gate.seen := <[(network p, txHash p) := Gate.clock w]> (Gate.seen w) |}.
Proof.
  unfold Gate.verifyPayment, ReplayGuard.consume.
  destruct (ChainVerifier.outcome _).
  - destruct (Gate.seen w !! (network p, txHash p)) eqn:Hs.
    + intros [= <- <-]. discriminate.
    + intros [= <- <-] _. done.
  - intros [= <- <-]. discriminate.
Qed.

Lemma gate_replay_denied (p : Payment) (recipient : string) (price : Q)
    (w : Gate.World) :
  is_Some (Gate.seen w !! (network p, txHash p)) →
  ∃ v w', Gate.verifyPayment p recipient price w = (inr v, w') ∧
          valid v = false ∧ is_undefined (error v) = false ∧
          Gate.seen w' = Gate.seen w.
Proof.
  intros [t Hs]. unfold Gate.verifyPayment, ReplayGuard.consume.
  destruct (ChainVerifier.outcome _).
  - rewrite Hs. eexists _, _. split; [reflexivity|]. done.
  - eexists _, _. split; [reflexivity|]. done.
Qed.

Lemma inputStep_trace {St : Type} (d : Imports St) (c : Ctx) (p : Payment)
    (v : Verification) (s : Sys St) :
  ∃ more : list Event,
    trace (Service.inputStep (getProxy d) (proxyFetch d) (URL_parse d)
             (invalidHeader d) c p v s).2 = (trace s ++ more)%list.
Proof.
  destruct (not_ (req_query c "url")) eqn:Hn.
  { rewrite (inputStep_no_url d c p v s Hn). exists []. cbn [snd].
    by rewrite app_nil_r. }
  assert (∃ url, asks c url) as [url Hq].
  { unfold not_ in Hn. destruct (req_query c "url") as [u|] eqn:Hu; [|done].
    exists u. split; [exact Hu|]. by destruct (JsString.truthy u). }
  destruct (URL_parse d url) as [parsed|] eqn:Hp.
  - destruct (negb (JsString.includes ["http:"; "https:"] (protocol parsed))
              || private_host (JsString.toLowerCase (hostname parsed)))
      eqn:Hb.
    + apply guard_decision in Hb.
      destruct (inputStep_blocked d c p v s url parsed Hq Hp Hb) as [msg ->].
      exists []. cbn [snd]. by rewrite app_nil_r.
    + assert (¬ ssrf_blocked parsed) as Hnb
        by (rewrite <- guard_decision; congruence).
      rewrite (inputStep_passed d c p v s url parsed Hq Hp Hnb).
      destruct (fetchStep_outcome d p v url s) as (resp & s' & more & -> & _ & E).
      by exists more.
  - rewrite (inputStep_unparsed d c p v s url Hq Hp).
    exists []. cbn [snd]. by rewrite app_nil_r.
Qed.

Lemma handle_bad_url {St : Type} (d : Imports St) (st st' : St) (c : Ctx)
    (w : string) (p : Payment) (v : Verification) :
  verifies d st c w p v st' → valid v = true → bad_url d c →
  ∃ resp,
    handle d st c = (inr resp, verified_at st' p w) ∧
    status resp = 400 ∧ wire_keys (body resp) = ["error"].
Proof.
  intros Hver Hv Hbad. rewrite (handle_verified d st st' c w p v Hver Hv).
  destruct Hbad as [Hn | (url & Hq & [Hp | (parsed & Hp & Hb)])].
  - rewrite (inputStep_no_url d c p v _ Hn). eexists. by split.
  - rewrite (inputStep_unparsed d c p v _ url Hq Hp). eexists. by split.
  - destruct (inputStep_blocked d c p v (verified_at st' p w) url parsed
                Hq Hp Hb) as [msg ->].
    eexists. by split.
Qed.

(** C9. Verification comes before URL validation. Whenever the request
    carries a claim, the first collaborator called is [verifyPayment]. When
    it returns valid and the [url] parameter is missing or invalid, the
    answer is 400, the only call made is that verification, nothing is
    fetched, and the process is left in the state verification produced.
    Under the gate of the specification that state holds the claim's
    transaction as consumed, and presenting the claim again is answered
    402. *)
Theorem verification_before_url_check :
  (∀ (St : Type) (d : Imports St) (st : St) (c : Ctx) (w : string)
     (p : Payment),
     configured d w → extractPayment d c = Some p →
     ∃ more, trace (handle d st c).2 = EvVerifyPayment p w PRICE_USDC :: more) ∧
  (∀ (St : Type) (d : Imports St) (st st' : St) (c : Ctx) (w : string)
     (p : Payment) (v : Verification),
     verifies d st c w p v st' → valid v = true → bad_url d c →
     ∃ resp,
       handle d st c = (inr resp, verified_at st' p w) ∧
       status resp = 400 ∧ wire_keys (body resp) = ["error"] ∧
       no_fetch (handle d st c)) ∧
  (∀ (d : Imports Gate.World) (st st' : Gate.World) (c : Ctx) (w : string)
     (p : Payment) (v : Verification),
     verifyPayment d = Gate.verifyPayment →
     verifies d st c w p v st' → valid v = true → bad_url d c →
     Gate.seen st !! (network p, txHash p) = None ∧
     Gate.seen (store (handle d st c).2) !! (network p, txHash p)
       = Some (Gate.clock st) ∧
     ∀ c2 : Ctx, extractPayment d c2 = Some p →
       ∃ resp2,
         (handle d (store (handle d st c).2) c2).1 = inr resp2 ∧
         status resp2 = 402 ∧
         wire_keys (body resp2) = ["error"; "reason"; "hint"] ∧
         no_fetch (handle d (store (handle d st c).2) c2)).
Proof.
  split; [|split].
  - intros St d st c w p Hw Hpay. rewrite (handle_paid d st c w p Hw Hpay).
    destruct (verifyPayment d p w PRICE_USDC st) as [[e|v] st'] eqn:Hver.
    + rewrite (verifyStep_throws d c p w
                 {| store := st; trace := []; resHeaders := [] |} e st' Hver).
      by exists [].
    + destruct (valid v) eqn:Hv.
      * rewrite (verifyStep_valid d c p w
                   {| store := st; trace := []; resHeaders := [] |} v st' Hver Hv).
        destruct (inputStep_trace d c p v
                    {| store := st';
                       trace := [EvVerifyPayment p w PRICE_USDC];
                       resHeaders := [] |}) as [more E].
        exists more. exact E.
      * rewrite (verifyStep_invalid d c p w
                   {| store := st; trace := []; resHeaders := [] |} v st' Hver Hv).
        by exists [].
  - intros St d st st' c w p v Hver Hv Hbad.
    destruct (handle_bad_url d st st' c w p v Hver Hv Hbad) as (resp & E & H1 & H2).
    exists resp. repeat split; try done.
    unfold no_fetch. rewrite E. repeat constructor.
  - intros d st st' c w p v Hgate Hver Hv Hbad.
    destruct (handle_bad_url d st st' c w p v Hver Hv Hbad) as (resp & E & _).
    rewrite E. cbn [snd store].
    destruct Hver as (Hw & Hpay & Hver). rewrite Hgate in Hver.
    destruct (gate_valid_consumes p w PRICE_USDC st st' v Hver Hv) as [Hnew ->].
    cbn [Gate.seen]. split; [exact Hnew|].
    split; [apply lookup_insert_eq|].
    intros c2 Hpay2.
    match goal with |- context [handle d ?x c2] => set (st2 := x) end.
    destruct (gate_replay_denied p w PRICE_USDC st2) as (v2 & w2 & Hv2 & Hinv & Hdef & _).
    { subst st2. cbn [Gate.seen]. rewrite lookup_insert_eq. by eexists. }
    rewrite <- Hgate in Hv2.
    rewrite (handle_paid d st2 c2 w p Hw Hpay2).
    rewrite (verifyStep_invalid d c2 p w
               {| store := st2; trace := []; resHeaders := [] |} v2 w2 Hv2 Hinv).
    eexists. split; [reflexivity|]. split; [reflexivity|]. split.
    + cbn [body]. destruct (error v2); try discriminate Hdef; reflexivity.
    + unfold no_fetch. cbn [snd trace]. repeat constructor.
Qed.

Lemma verification_before_url_check_witness :
  ∃ resp,
    handle Demo.imports Demo.world (Demo.request None) =
      (inr resp, verified_at Demo.world_paid Demo.claim Demo.wallet) ∧
    status resp = 400.
Proof.
  destruct verification_before_url_check as (_ & H & _).
  destruct (H Gate.World Demo.imports Demo.world Demo.world_paid
              (Demo.request None) Demo.wallet Demo.claim Demo.verified)
    as (resp & E & Hs & _).
  - repeat split.
  - reflexivity.
  - left. reflexivity.
  - exists resp. auto.
Defined.

(** ** The chain verifier of the specification *)

Section Tolerance.

Import ChainVerifier.

Lemma within_tolerance_spec (price usd : Q) :
  within_tolerance price usd = true ↔ (price * (98 # 100) <= usd)%Q.
Proof. unfold within_tolerance, TOLERANCE. apply Qle_bool_iff. Qed.

Lemma verify_accepted (n : Network) (reply : ChainReply) (wallet : string)
    (price : Q) :
  outcome (verify n reply wallet price) = Accepted →
  ∃ from usd, reply = Transfer from wallet usd ∧
              within_tolerance price usd = true ∧
              verify n reply wallet price = mkResult Accepted from wallet usd.
Proof.
  destruct n, reply as [| |from to usd]; cbn [verify verifySolana verifyBase];
    try discriminate.
  - destruct (within_tolerance price usd) eqn:Ht; cbn [negb]; [|discriminate].
    destruct (String.eqb to wallet) eqn:He; cbn [negb]; [|discriminate].
    apply String.eqb_eq in He as ->. intros _. by exists from, usd.
  - destruct (String.eqb to wallet) eqn:He; cbn [negb]; [|discriminate].
    destruct (within_tolerance price usd) eqn:Ht; cbn [negb]; [|discriminate].
    apply String.eqb_eq in He as ->. intros _. by exists from, usd.
Qed.

Lemma verify_transfer (n : Network) (from wallet : string) (price usd : Q) :
  outcome (verify n (Transfer from wallet usd) wallet price) =
    if within_tolerance price usd then Accepted else Rejected AmountMismatch.
Proof.
  destruct n; cbn [verify verifySolana verifyBase];
    rewrite String.eqb_refl; by destruct (within_tolerance price usd).
Qed.

End Tolerance.

(** C2. For both variants of the chain verifier a result is [Accepted] only
    for a transfer to the required recipient of at least 0.98 times the
    required price. A transfer to the recipient of exactly price times 0.98
    is accepted; one of price times 0.98 minus 0.01 is rejected with
    [AmountMismatch]. Amounts are exact rationals. *)
Theorem tolerance_threshold (n : Network) (wallet : string) (price : Q) :
  (∀ reply,
     ChainVerifier.outcome (ChainVerifier.verify n reply wallet price)
       = ChainVerifier.Accepted →
     (price * (98 # 100) <=
        ChainVerifier.amountUsd (ChainVerifier.verify n reply wallet price))%Q ∧
     ChainVerifier.recipient (ChainVerifier.verify n reply wallet price) = wallet) ∧
  (∀ from usd, (usd == price * (98 # 100))%Q →
     ChainVerifier.outcome
       (ChainVerifier.verify n (ChainVerifier.Transfer from wallet usd) wallet price)
       = ChainVerifier.Accepted) ∧
  (∀ from usd, (usd == price * (98 # 100) - (1 # 100))%Q →
     ChainVerifier.outcome
       (ChainVerifier.verify n (ChainVerifier.Transfer from wallet usd) wallet price)
       = ChainVerifier.Rejected ChainVerifier.AmountMismatch).
Proof.
  split; [|split].
  - intros reply Hacc.
    destruct (verify_accepted n reply wallet price Hacc)
      as (from & usd & -> & Ht & ->).
    cbn [ChainVerifier.amountUsd ChainVerifier.recipient].
    split; [by apply within_tolerance_spec | reflexivity].
  - intros from usd Husd. rewrite verify_transfer.
    assert (ChainVerifier.within_tolerance price usd = true) as ->; [|done].
    apply within_tolerance_spec. rewrite Husd. apply Qle_refl.
  - intros from usd Husd. rewrite verify_transfer.
    destruct (ChainVerifier.within_tolerance price usd) eqn:Ht; [|done].
    apply within_tolerance_spec in Ht. rewrite Husd in Ht. lra.
Qed.

Lemma tolerance_threshold_witness :
  ChainVerifier.outcome
    (ChainVerifier.verify base
       (ChainVerifier.Transfer "Payer111" Demo.wallet (49 # 10000))
       Demo.wallet Service.PRICE_USDC) = ChainVerifier.Accepted ∧
  ChainVerifier.outcome
    (ChainVerifier.verify solana
       (ChainVerifier.Transfer "Payer111" Demo.wallet (195 # 100))
       Demo.wallet (200 # 100))
    = ChainVerifier.Rejected ChainVerifier.AmountMismatch.
Proof.
  split.
  - apply (tolerance_threshold base Demo.wallet Service.PRICE_USDC).
    reflexivity.
  - apply (tolerance_threshold solana Demo.wallet (200 # 100)).
    reflexivity.
Defined.

(** ** The replay guard of the specification *)

Section Replay.

Import ReplayGuard.

Implicit Types (calls : list (Key * Z)) (g : gmap Key Z) (k : Key).

Lemma consume_present (now : Z) k g k' :
  is_Some ((consume now k g).2 !! k') ↔ is_Some (g !! k') ∨ k' = k.
Proof.
  unfold consume. destruct (g !! k) eqn:E; cbn [snd].
  - split; [by left|]. intros [H | ->]; [done | by rewrite E].
  - rewrite lookup_insert. case_decide as Hk.
    + subst. split; [by right | by eexists].
    + split; [by left|]. intros [H | ->]; done.
Qed.

Lemma consumeAll_cons (now : Z) k calls g :
  consumeAll ((k, now) :: calls) g =
    ((consume now k g).1 :: (consumeAll calls (consume now k g).2).1,
     (consumeAll calls (consume now k g).2).2).
Proof.
  cbn [consumeAll]. destruct (consume now k g) as [r g']. cbn [fst snd].
  by destruct (consumeAll calls g').
Qed.

Lemma consumeAll_present calls g k :
  is_Some ((consumeAll calls g).2 !! k) ↔ is_Some (g !! k) ∨ k ∈ calls.*1.
Proof.
  revert g. induction calls as [|[k0 t0] rest IH]; intros g.
  - cbn. rewrite elem_of_nil. tauto.
  - rewrite consumeAll_cons. cbn [snd]. rewrite IH, consume_present.
    rewrite fmap_cons, elem_of_cons. cbn [fst]. tauto.
Qed.

Lemma consumeAll_lookup calls g (i : nat) k (now : Z) :
  calls !! i = Some (k, now) →
  (consumeAll calls g).1 !! i =
    Some (if decide (is_Some (g !! k) ∨ k ∈ (take i calls).*1)
          then AlreadyUsed else FirstUse).
Proof.
  revert g i. induction calls as [|[k0 t0] rest IH]; intros g i Hi; [done|].
  rewrite consumeAll_cons. cbn [fst]. destruct i as [|i].
  - injection Hi as -> ->. cbn [lookup list_lookup take fmap list_fmap].
    unfold consume. destruct (g !! k) eqn:E; cbn [fst].
    + rewrite decide_True; [done | left; by eexists].
    + rewrite decide_False; [done|].
      intros [[x Hx] | Hin]; [congruence | by apply elem_of_nil in Hin].
  - cbn [lookup list_lookup] in Hi |- *. rewrite (IH _ i Hi). f_equal.
    apply decide_ext. rewrite consume_present.
    cbn [take]. rewrite fmap_cons, elem_of_cons. cbn [fst]. tauto.
Qed.

Lemma first_uses_count calls g k :
  length (filter (fun cr : (Key * Z) * ConsumeResult =>
                    cr.1.1 = k ∧ cr.2 = FirstUse)
                 (zip calls (consumeAll calls g).1)) =
    if decide (is_Some (g !! k) ∨ k ∉ calls.*1) then 0 else 1.
Proof.
  revert g. induction calls as [|[k0 t0] rest IH]; intros g.
  - cbn. rewrite decide_True; [done|]. right. apply not_elem_of_nil.
  - rewrite consumeAll_cons. cbn [fst zip zip_with].
    rewrite filter_cons. cbn [fst snd].
    assert (k ∈ ((k0, t0) :: rest).*1 ↔ k = k0 ∨ k ∈ rest.*1) as Hcons
      by (rewrite fmap_cons, elem_of_cons; done).
    destruct (g !! k0) eqn:E;
      [ assert (consume t0 k0 g = (AlreadyUsed, g)) as ->
          by (unfold consume; by rewrite E)
      | assert (consume t0 k0 g = (FirstUse, <[k0:=t0]> g)) as ->
          by (unfold consume; by rewrite E) ];
      cbn [fst snd].
    + rewrite decide_False by (intros [_ ?]; done).
      rewrite IH. apply decide_ext. rewrite Hcons. split.
      * intros [H | H]; [by left|].
        destruct (decide (k = k0)) as [-> | Hne]; [left; by eexists|].
        right. tauto.
      * intros [H | H]; [by left | right; tauto].
    + destruct (decide (k0 = k)) as [-> | Hne].
      * rewrite decide_True by done. cbn [length]. rewrite IH.
        rewrite decide_True by (left; rewrite lookup_insert_eq; by eexists).
        rewrite decide_False; [done|].
        intros [[x Hx] | H]; [congruence | apply H, Hcons; by left].
      * rewrite decide_False by (intros [? _]; done).
        rewrite IH. apply decide_ext. rewrite Hcons.
        rewrite lookup_insert_ne by done. split.
        -- intros [H | H]; [by left | right; intros [? | ?]; [congruence | done]].
        -- intros [H | H]; [by left | right; tauto].
Qed.

End Replay.

(** C1. In a run of the process that starts with nothing consumed, a
    [consume] call for a pair returns [FirstUse] when no earlier call of
    the run was for that pair and [AlreadyUsed] when one was, whatever
    calls for other pairs lie in between. The pair goes from absent to
    present exactly once if it is ever consumed, and once present it
    stays present. *)
Theorem consume_first_use_once (calls : list ((Network * string) * Z))
    (k : Network * string) :
  (∀ (i : nat) (now : Z), calls !! i = Some (k, now) →
     k ∉ (take i calls).*1 →
     ReplayGuard.results calls !! i = Some ReplayGuard.FirstUse) ∧
  (∀ (i : nat) (now : Z), calls !! i = Some (k, now) →
     k ∈ (take i calls).*1 →
     ReplayGuard.results calls !! i = Some ReplayGuard.AlreadyUsed) ∧
  (k ∈ calls.*1 → ReplayGuard.transitions k calls = 1) ∧
  (k ∉ calls.*1 → ReplayGuard.transitions k calls = 0) ∧
  (∀ i j : nat, (i ≤ j)%nat →
     is_Some (ReplayGuard.seenAfter i calls !! k) →
     is_Some (ReplayGuard.seenAfter j calls !! k)).
Proof.
  unfold ReplayGuard.results, ReplayGuard.transitions, ReplayGuard.seenAfter.
  repeat split.
  - intros i now Hi Hnew. rewrite (consumeAll_lookup calls ∅ i k now Hi).
    rewrite decide_False; [done|].
    intros [[x Hx] | H]; [by rewrite lookup_empty in Hx | done].
  - intros i now Hi Hold. rewrite (consumeAll_lookup calls ∅ i k now Hi).
    rewrite decide_True; [done | by right].
  - intros Hin. unfold ReplayGuard.results. rewrite first_uses_count.
    rewrite decide_False; [done|].
    intros [[x Hx] | H]; [by rewrite lookup_empty in Hx | done].
  - intros Hout. unfold ReplayGuard.results. rewrite first_uses_count.
    rewrite decide_True; [done | by right].
  - intros i j Hij. rewrite !consumeAll_present.
    intros [[x Hx] | H]; [by rewrite lookup_empty in Hx|]. right.
    apply list_elem_of_fmap in H as (y & -> & Hy).
    apply list_elem_of_fmap. exists y. split; [done|].
    apply elem_of_take in Hy as (n & Hy & Hn).
    apply elem_of_take. exists n. split; [done | lia].
Qed.

Lemma consume_first_use_once_witness :
  ReplayGuard.results Demo.calls !! 0%nat = Some ReplayGuard.FirstUse ∧
  ReplayGuard.results Demo.calls !! 2%nat = Some ReplayGuard.AlreadyUsed ∧
  ReplayGuard.transitions (solana, "tx-1") Demo.calls = 1%nat.
Proof.
  destruct (consume_first_use_once Demo.calls (solana, "tx-1"))
    as (Hfirst & Hagain & Honce & _).
  split; [|split].
  - apply (Hfirst 0%nat 1%Z); [reflexivity|]. apply not_elem_of_nil.
  - apply (Hagain 2%nat 3%Z); [reflexivity|]. apply list_elem_of_here.
  - apply Honce. apply list_elem_of_here.
Defined.

(** ** The model on concrete inputs *)

Example startsWith_127 : JsString.startsWith "127.0.0.1" "127." = true.
Proof. reflexivity. Qed.

Example startsWith_172 : JsString.startsWith "172.217.0.1" "172." = true.
Proof. reflexivity. Qed.

Example endsWith_internal : JsString.endsWith "svc.internal" ".internal" = true.
Proof. reflexivity. Qed.

Example endsWith_short : JsString.endsWith "al" ".local" = false.
Proof. reflexivity. Qed.

Example toLowerCase_mixed : JsString.toLowerCase "LocalHost" = "localhost".
Proof. reflexivity. Qed.

Example reads_loopback :
  Demo.URL_parse "http://127.0.0.1/" =
    Some {| protocol := "http:"; hostname := "127.0.0.1" |}.
Proof. reflexivity. Qed.

Example reads_metadata :
  Demo.URL_parse "http://169.254.169.254/latest/meta-data" =
    Some {| protocol := "http:"; hostname := "169.254.169.254" |}.
Proof. reflexivity. Qed.

Example reads_internal :
  Demo.URL_parse "https://svc.internal" =
    Some {| protocol := "https:"; hostname := "svc.internal" |}.
Proof. reflexivity. Qed.

Example reads_example_com :
  Demo.URL_parse "https://example.com" =
    Some {| protocol := "https:"; hostname := "example.com" |}.
Proof. reflexivity. Qed.

(** The status the demo process answers with, and whether it fetched. *)
Example run_loopback :
  let out := handle Demo.imports Demo.world (Demo.request (Some "http://127.0.0.1/")) in
  (status <$> answered out, existsb is_fetch (trace out.2)) = (Some 400%nat, false).
Proof. vm_compute. reflexivity. Qed.

Example run_metadata :
  let out := handle Demo.imports Demo.world
               (Demo.request (Some "http://169.254.169.254/latest/meta-data")) in
  (status <$> answered out, existsb is_fetch (trace out.2)) = (Some 400%nat, false).
Proof. vm_compute. reflexivity. Qed.

Example run_internal :
  let out := handle Demo.imports Demo.world
               (Demo.request (Some "https://svc.internal")) in
  (status <$> answered out, existsb is_fetch (trace out.2)) = (Some 400%nat, false).
Proof. vm_compute. reflexivity. Qed.

Example run_ftp :
  let out := handle Demo.imports Demo.world
               (Demo.request (Some "ftp://example.com/file")) in
  (status <$> answered out, existsb is_fetch (trace out.2)) = (Some 400%nat, false).
Proof. vm_compute. reflexivity. Qed.

Example run_example_com :
  let out := handle Demo.imports Demo.world
               (Demo.request (Some "https://example.com")) in
  (status <$> answered out, existsb is_fetch (trace out.2)) = (Some 200%nat, true).
Proof. vm_compute. reflexivity. Qed.

Example run_unpaid :
  let out := handle Demo.imports Demo.world
               (Demo.request_unpaid (Some "https://example.com")) in
  (status <$> answered out, trace out.2) = (Some 402%nat, []).
Proof. vm_compute. reflexivity. Qed.

Example run_replayed :
  let first := handle Demo.imports Demo.world
                 (Demo.request (Some "https://example.com")) in
  let again := handle Demo.imports (store first.2)
                 (Demo.request (Some "https://example.com")) in
  (status <$> answered first, status <$> answered again,
   (fun r => get_field "reason" (body r)) <$> answered again) =
    (Some 200%nat, Some 402%nat, Some (Some (JString "AlreadyUsed"))).
Proof. vm_compute. reflexivity. Qed.

Example run_proxy_down :
  let out := handle Demo.imports_down Demo.world
               (Demo.request (Some "https://example.com")) in
  (status <$> answered out, headers <$> answered out) = (Some 502%nat, Some []).
Proof. vm_compute. reflexivity. Qed.

Example run_body_cut :
  let out := handle Demo.imports_cut Demo.world
               (Demo.request (Some "https://example.com")) in
  (status <$> answered out, headers <$> answered out) = (Some 502%nat, Some []).
Proof. vm_compute. reflexivity. Qed.

(** What [Headers.set] makes of a value: outer whitespace goes, inner
    whitespace stays, a line feed inside is refused. *)
Example normalize_padded : Headers.normalize Demo.padded_hash = "tx 1".
Proof. reflexivity. Qed.

Example normalize_blank : Headers.normalize "   " = EmptyString.
Proof. reflexivity. Qed.

Example accepts_padded :
  (Headers.accepts Demo.padded_hash, Headers.is_value Demo.padded_hash)
  = (true, false).
Proof. reflexivity. Qed.

Example refuses_broken : Headers.accepts Demo.broken_hash = false.
Proof. reflexivity. Qed.

(** A paid request whose transaction id has spaces around it gets its 200
    with the id stripped in the header and as it came in the payload. *)
Example run_padded_hash :
  let out := handle Demo.imports Demo.world_open
               (Demo.request_signed Demo.padded_hash
                  (Some "https://example.com")) in
  (status <$> answered out,
   (fun r => header_of r "X-Payment-TxHash") <$> answered out,
   (fun r => get_field "txHash" <$> get_field "payment" (body r))
     <$> answered out)
  = (Some 200%nat, Some (Some "tx 1"),
     Some (Some (Some (JString " tx 1 ")))).
Proof. vm_compute. reflexivity. Qed.

(** A paid request whose transaction id holds a line feed is fetched and
    then answered 502, with the first settlement header already set. *)
Example run_broken_hash :
  let out := handle Demo.imports Demo.world_open
               (Demo.request_signed Demo.broken_hash
                  (Some "https://example.com")) in
  (status <$> answered out, headers <$> answered out,
   existsb is_fetch (trace out.2))
  = (Some 502%nat, Some [ ("X-Payment-Settled", "true") ], true).
Proof. vm_compute. reflexivity. Qed.

(** A page of 50001 characters comes back cut to 50000, with its full
    length reported. *)
Example run_long_page :
  let out := handle (Demo.imports_page 50001) Demo.world
               (Demo.request (Some "https://example.com")) in
  match out.1 with
  | inr resp =>
      match get_field "text" (body resp), get_field "contentLength" (body resp) with
      | Some (JString t), Some (JNumber n) =>
          (Nat.eqb (String.length t) 50000 && Qeq_bool n 50001)%bool
      | _, _ => false
      end
  | inl _ => false
  end = true.
Proof. vm_compute. reflexivity. Qed.

Example run_results :
  ReplayGuard.results Demo.calls =
    [ ReplayGuard.FirstUse; ReplayGuard.FirstUse;
      ReplayGuard.AlreadyUsed; ReplayGuard.FirstUse ].
Proof. vm_compute. reflexivity. Qed.

Example half_price_rejected :
  ChainVerifier.outcome
    (ChainVerifier.verify solana
       (ChainVerifier.Transfer "Payer111" Demo.wallet (25 # 10000))
       Demo.wallet PRICE_USDC)
    = ChainVerifier.Rejected ChainVerifier.AmountMismatch.
Proof. reflexivity. Qed.

(** ** Every request takes one of the paths *)

Section Served.

Import Paths.

Context {St : Type}.
Variable d : Imports St.

Lemma other_scheme_spec (parsed : URL) :
  negb (JsString.includes ["http:"; "https:"] (protocol parsed)) = true
  ↔ other_scheme parsed.
Proof. rewrite negb_true_iff. apply includes_http. Qed.

Lemma inputStep_refused (c : Ctx) (p : Payment) (v : Verification)
    (s : Sys St) (msg : string) :
  Refused d c msg →
  Service.inputStep (getProxy d) (proxyFetch d) (URL_parse d)
    (invalidHeader d) c p v s =
    (inr {| status := 400; headers := resHeaders s;
            body := JObject [ ("error", JString msg) ] |}, s).
Proof.
  intros [Hn | url Hq Hp | url parsed Hq Hp Hs | url parsed Hq Hp Hs Hb].
  - apply (inputStep_no_url d c p v s Hn).
  - apply (inputStep_unparsed d c p v s url Hq Hp).
  - destruct Hq as [Hq Ht]. apply other_scheme_spec in Hs.
    unfold Service.inputStep, Service.validateUrl, not_, bind.
    rewrite Hq, Ht. cbn [negb from_option id]. rewrite Hp, Hs. reflexivity.
  - destruct Hq as [Hq Ht]. rewrite <- other_scheme_spec in Hs.
    apply not_true_is_false in Hs. apply private_host_spec in Hb.
    unfold Service.inputStep, Service.validateUrl, not_, bind.
    rewrite Hq, Ht. cbn [negb from_option id]. rewrite Hp, Hs, Hb.
    reflexivity.
Qed.

(** The [url] parameter is either refused for one of the four reasons or
    passes validation. *)
Lemma refused_or_passes (c : Ctx) :
  (∃ msg, Refused d c msg) ∨
  (∃ url parsed, asks c url ∧ URL_parse d url = Some parsed ∧
                 ¬ ssrf_blocked parsed).
Proof.
  destruct (not_ (req_query c "url")) eqn:Hn.
  { left. eexists. by apply refused_missing. }
  assert (∃ url, asks c url) as [url Hq].
  { unfold not_ in Hn. destruct (req_query c "url") as [u|] eqn:Hu; [|done].
    exists u. split; [exact Hu|]. by destruct (JsString.truthy u). }
  destruct (URL_parse d url) as [parsed|] eqn:Hp.
  - destruct (negb (JsString.includes ["http:"; "https:"] (protocol parsed)))
      eqn:Hs.
    + left. eexists. eapply refused_scheme; [done.. |].
      by apply other_scheme_spec.
    + assert (¬ other_scheme parsed) as Hns
        by (rewrite <- other_scheme_spec; congruence).
      destruct (private_host (JsString.toLowerCase (hostname parsed))) eqn:Hb.
      * left. eexists. eapply refused_private; [done.. |].
        by apply private_host_spec.
      * right. exists url, parsed. split; [done|]. split; [done|].
        intros [H | H]; [done|]. apply private_host_spec in H. congruence.
  - left. eexists. by eapply refused_format.
Qed.

Lemma handle_served (st : St) (c : Ctx) : Served d st c (handle d st c).
Proof.
  destruct (not_ (env d "WALLET_ADDRESS")) eqn:Hn.
  { rewrite (handle_unconfigured d st c Hn). by constructor. }
  assert (∃ w, configured d w) as [w Hw].
  { unfold not_ in Hn. destruct (env d "WALLET_ADDRESS") as [w|] eqn:He; [|done].
    exists w. split; [done|]. by destruct (JsString.truthy w). }
  destruct (extractPayment d c) as [p|] eqn:Hpay.
  2: { rewrite (handle_unpaid d st c w Hw Hpay). by apply served_unpaid. }
  destruct (verifyPayment d p w PRICE_USDC st) as [[e|v] st'] eqn:Hver.
  { rewrite (handle_paid d st c w p Hw Hpay).
    rewrite (verifyStep_throws d c p w
               {| store := st; trace := []; resHeaders := [] |} e st' Hver).
    by eapply served_verify_throws. }
  assert (verifies d st c w p v st') as Hv by done.
  destruct (valid v) eqn:Hvalid.
  2: { rewrite (handle_paid d st c w p Hw Hpay).
       rewrite (verifyStep_invalid d c p w
                  {| store := st; trace := []; resHeaders := [] |} v st'
                  Hver Hvalid).
       by apply served_denied. }
  rewrite (handle_verified d st st' c w p v Hv Hvalid).
  destruct (refused_or_passes c) as [[msg Hr] | (url & parsed & Hq & Hp & Hb)].
  { rewrite (inputStep_refused c p v _ msg Hr). by eapply served_refused. }
  assert (cleared d st c w p v st' url) as Hc.
  { split; [done|]. split; [done|]. split; [done|]. by exists parsed. }
  rewrite (inputStep_passed d c p v _ url parsed Hq Hp Hb).
  destruct (getProxy d st') as [[e|proxy] st1] eqn:H1.
  { rewrite (fetchStep_proxy_throws d p v url (verified_at st' p w) e st1 H1).
    by eapply served_proxy_throws. }
  destruct (proxyFetch d url st1) as [[e|r] st2] eqn:H2.
  { rewrite (fetchStep_fetch_throws d p v url (verified_at st' p w) proxy e
               st1 st2 H1 H2).
    by eapply served_fetch_throws. }
  destruct (fr_text r) as [e|text] eqn:H3.
  - rewrite (fetchStep_body_throws d p v url (verified_at st' p w) proxy r e
               st1 st2 H1 H2 H3).
    by eapply served_body_throws.
  - destruct (Headers.accepts (txHash p)) eqn:Hok.
    + rewrite (fetchStep_ok d p v url (verified_at st' p w) proxy r text
                 st1 st2 H1 H2 H3 eq_refl Hok).
      by eapply served_ok.
    + rewrite (fetchStep_header_throws d p v url (verified_at st' p w) proxy
                 r text st1 st2 H1 H2 H3 eq_refl Hok).
      by eapply served_header_throws.
Qed.

End Served.

(** ** What the handler never does *)

Import Paths.

(** Case analysis on the path a request took. *)
Ltac by_path d st c :=
  let H := fresh "Hpath" in
  let out := fresh "out" in
  let E := fresh "Eout" in
  pose proof (handle_served d st c) as H;
  remember (handle d st c) as out eqn:E;
  destruct H; cbn [fst snd trace store after fresh status headers body
                   error_response denied_response failed_response ok_response
                   half_settled_response]
                in *.

(** X1. Every request is answered with one of the statuses 200, 400, 402,
    500 and 502, unless [verifyPayment] throws; then the handler rejects
    with that error, having made no other call. *)
Theorem answered_or_verify_threw {St : Type} (d : Imports St) (st : St)
    (c : Ctx) :
  (∃ resp, (handle d st c).1 = inr resp ∧
           status resp ∈ [200; 400; 402; 500; 502]%nat) ∨
  (∃ e w p st',
     configured d w ∧ extractPayment d c = Some p ∧
     verifyPayment d p w PRICE_USDC st = (inl e, st') ∧
     handle d st c = (inl e, after st' [EvVerifyPayment p w PRICE_USDC] [])).
Proof.
  by_path d st c;
    try (left; eexists; split; [reflexivity|]; cbn; set_solver).
  right. by exists e, w, p, st'.
Qed.

(** X2. A URL reaches [proxyFetch] only if it is the request's [url]
    parameter, the claim was verified as valid before, and the URL parsed
    with an http or https scheme and a host off the block list. *)
Theorem fetch_only_when_cleared {St : Type} (d : Imports St) (st : St)
    (c : Ctx) (u : string) :
  EvProxyFetch u ∈ trace (handle d st c).2 →
  ∃ w p v st', cleared d st c w p v st' u.
Proof.
  intros Hin. by_path d st c; try (exfalso; set_solver).
  all: assert (u = url) as -> by set_solver; by exists w, p, v, st'.
Qed.

Lemma fetch_only_when_cleared_witness :
  ∃ w p v st',
    cleared Demo.imports Demo.world (Demo.request (Some "https://example.com"))
      w p v st' "https://example.com".
Proof.
  apply (fetch_only_when_cleared Demo.imports Demo.world
           (Demo.request (Some "https://example.com"))).
  vm_compute. do 2 apply list_elem_of_further. apply list_elem_of_here.
Defined.

(** X3. A 200 is only sent for a request whose claim was verified as valid
    and whose URL passed validation, after that URL was fetched, its body
    read and the transaction hash taken by [c.header]. The response names
    the URL and carries the hash in [X-Payment-TxHash] as [Headers.set]
    stores it, stripped of its outer whitespace: the hash itself when it
    is a header value. *)
Theorem ok_only_when_paid {St : Type} (d : Imports St) (st : St) (c : Ctx)
    (resp : Response) :
  (handle d st c).1 = inr resp → status resp = 200%nat →
  ∃ w p v st' url,
    cleared d st c w p v st' url ∧
    trace (handle d st c).2 =
      [EvVerifyPayment p w PRICE_USDC; EvGetProxy; EvProxyFetch url; EvReadBody] ∧
    get_field "url" (body resp) = Some (JString url) ∧
    Headers.accepts (txHash p) = true ∧
    header_of resp "X-Payment-TxHash" = Some (Headers.normalize (txHash p)) ∧
    (Headers.is_value (txHash p) = true →
     header_of resp "X-Payment-TxHash" = Some (txHash p)).
Proof.
  intros Hr Hs. by_path d st c; try discriminate Hr;
    injection Hr as <-; try discriminate Hs.
  exists w, p, v, st', url. do 5 (split; [done|]).
  intros [Hsame _]%is_value_spec. cbn. by rewrite Hsame.
Qed.

Lemma ok_only_when_paid_witness :
  ∃ w p v st' url,
    cleared Demo.imports Demo.world (Demo.request (Some "https://example.com"))
      w p v st' url ∧
    Headers.accepts (txHash p) = true.
Proof.
  destruct (ok_only_when_paid Demo.imports Demo.world
              (Demo.request (Some "https://example.com"))
              (ok_response Demo.claim Demo.verified "https://example.com"
                 {| country := JString "US" |}
                 {| fr_status := 200; fr_text := inr "<html>hello</html>" |}
                 "<html>hello</html>"))
    as (w & p & v & st' & url & Hc & _ & _ & Hok & _).
  - reflexivity.
  - reflexivity.
  - by exists w, p, v, st', url.
Defined.

(** X4. The settlement headers are set only once the page is fetched and
    read. A 200 carries [X-Payment-Settled: true]. A response with any
    header set by the handler belongs to a request that was cleared and
    whose page was fetched and read; it is the 200, or the 502 sent when
    [c.header] refused the transaction hash, which carries
    [X-Payment-Settled: true] alone and the platform's error. When
    [c.header] takes the hash of the request's claim, [X-Payment-Settled]
    is on a response exactly when its status is 200, and every other
    response has no header set by the handler. *)
Theorem settled_header_after_fetch {St : Type} (d : Imports St) (st : St)
    (c : Ctx) (resp : Response) :
  (handle d st c).1 = inr resp →
  (status resp = 200%nat → header_of resp "X-Payment-Settled" = Some "true") ∧
  (headers resp ≠ [] →
   ∃ w p v st' url,
     cleared d st c w p v st' url ∧
     trace (handle d st c).2 =
       [EvVerifyPayment p w PRICE_USDC; EvGetProxy; EvProxyFetch url;
        EvReadBody] ∧
     header_of resp "X-Payment-Settled" = Some "true" ∧
     (status resp = 200%nat ∧ Headers.accepts (txHash p) = true ∨
      resp = half_settled_response
               (invalidHeader d "X-Payment-TxHash" (txHash p)) ∧
      Headers.accepts (txHash p) = false)) ∧
  ((∀ p, extractPayment d c = Some p → Headers.accepts (txHash p) = true) →
   (header_of resp "X-Payment-Settled" = Some "true" ↔ status resp = 200%nat) ∧
   (status resp ≠ 200%nat → headers resp = [])).
Proof.
  intros Hr. by_path d st c; try discriminate Hr; injection Hr as <-; cbn.
  1-7: split; [done|]; split; [done|]; intros _; split; done.
  - split; [done|]. split; [|intros _; split; done].
    intros _. exists w, p, v, st', url. do 3 (split; [done|]). by left.
  - split; [done|]. split.
    + intros _. exists w, p, v, st', url. do 3 (split; [done|]). by right.
    + intros Hall.
      match goal with Hc : cleared _ _ _ _ _ _ _ _ |- _ =>
        destruct Hc as ((_ & Hpay & _) & _) end.
      specialize (Hall p Hpay). congruence.
Qed.

Lemma settled_header_after_fetch_witness :
  header_of (error_response 400 "Private/internal URLs are not allowed")
    "X-Payment-Settled" = Some "true"
  ↔ 400%nat = 200%nat.
Proof.
  destruct (settled_header_after_fetch Demo.imports Demo.world
              (Demo.request (Some "http://127.0.0.1/"))
              (error_response 400 "Private/internal URLs are not allowed"))
    as (_ & _ & H).
  - reflexivity.
  - apply H. intros p [= <-]. reflexivity.
Defined.

(** X5. The collaborators are called at most once each and in a fixed
    order: verification of the request's claim for the configured wallet,
    proxy configuration, fetch of the request's [url] parameter, reading
    of the body. No call is made without a wallet and a claim, and none
    after the verification unless the request is cleared. *)
Theorem calls_in_order {St : Type} (d : Imports St) (st : St) (c : Ctx) :
  trace (handle d st c).2 = [] ∨
  ∃ w p,
    configured d w ∧ extractPayment d c = Some p ∧
    (trace (handle d st c).2 = [EvVerifyPayment p w PRICE_USDC] ∨
     ∃ v st' url,
       cleared d st c w p v st' url ∧
       (trace (handle d st c).2 =
          [EvVerifyPayment p w PRICE_USDC; EvGetProxy] ∨
        trace (handle d st c).2 =
          [EvVerifyPayment p w PRICE_USDC; EvGetProxy; EvProxyFetch url] ∨
        trace (handle d st c).2 =
          [EvVerifyPayment p w PRICE_USDC; EvGetProxy; EvProxyFetch url;
           EvReadBody])).
Proof.
  by_path d st c.
  1, 2: by left.
  all: right; exists w, p.
  all: try match goal with H : verifies _ _ _ _ _ _ _ |- _ =>
             pose proof H as (? & ? & ?) end.
  all: try match goal with H : cleared _ _ _ _ _ _ _ _ |- _ =>
             pose proof H as ((? & ? & ?) & _) end.
  all: split; [done|]; split; [done|].
  1-3: by left.
  all: right; exists v, st', url; split; [done|].
  - by left.
  - right. by left.
  - right. by right.
  - right. by right.
  - right. by right.
Qed.

(** X6. When [getProxy] throws (the proxy is not configured), a request
    that already passed verification and URL validation gets 502 with the
    thrown message; [proxyFetch] is not called. *)
Theorem proxy_config_failure_502 {St : Type} (d : Imports St) (st st' st1 : St)
    (c : Ctx) (w : string) (p : Payment) (v : Verification) (url : string)
    (e : Exn) :
  cleared d st c w p v st' url →
  getProxy d st' = (inl e, st1) →
  handle d st c =
    (inr (failed_response e),
     after st1 [EvVerifyPayment p w PRICE_USDC; EvGetProxy] []).
Proof.
  intros Hc H1. rewrite (handle_cleared d st st' c w p v url Hc).
  apply (fetchStep_proxy_throws d p v url (verified_at st' p w) e st1 H1).
Qed.

(** X7. A 400 names its cause. After a valid verification the [url]
    parameter is refused with "Missing required parameter" when absent or
    empty, "Invalid URL format" when [URL] throws, the scheme message when
    the scheme is not http or https (whatever the host), and the private
    host message when the scheme is fine and the host is on the block
    list. *)
Theorem refusal_names_cause {St : Type} (d : Imports St) (st st' : St)
    (c : Ctx) (w : string) (p : Payment) (v : Verification) (msg : string) :
  verifies d st c w p v st' → valid v = true → Refused d c msg →
  handle d st c =
    (inr (error_response 400 msg),
     after st' [EvVerifyPayment p w PRICE_USDC] []).
Proof.
  intros Hv Hvalid Hr. rewrite (handle_verified d st st' c w p v Hv Hvalid).
  apply (inputStep_refused d c p v (verified_at st' p w) msg Hr).
Qed.

(** X8. Empty values count as missing: an empty [WALLET_ADDRESS] gives the
    same 500 as an unset one, and an empty [url] parameter gives the 400
    for a missing parameter, after verification. *)
Theorem empty_values_are_missing {St : Type} (d : Imports St) (st : St)
    (c : Ctx) :
  (env d "WALLET_ADDRESS" = Some EmptyString →
   handle d st c =
     (inr (error_response 500 "Service misconfigured: WALLET_ADDRESS not set"),
      fresh st)) ∧
  (∀ w p v st',
     verifies d st c w p v st' → valid v = true →
     req_query c "url" = Some EmptyString →
     handle d st c =
       (inr (error_response 400 "Missing required parameter: ?url=<target_url>"),
        after st' [EvVerifyPayment p w PRICE_USDC] [])).
Proof.
  split.
  - intros He. apply handle_unconfigured. by rewrite He.
  - intros w p v st' Hv Hvalid Hq.
    rewrite (handle_verified d st st' c w p v Hv Hvalid).
    apply (inputStep_no_url d c p v (verified_at st' p w)). by rewrite Hq.
Qed.

Lemma proxy_config_failure_502_witness :
  handle Demo.imports_noproxy Demo.world
    (Demo.request (Some "https://example.com")) =
    (inr (failed_response {| message := JString "Proxy not configured" |}),
     after Demo.world_paid
       [EvVerifyPayment Demo.claim Demo.wallet PRICE_USDC; EvGetProxy] []).
Proof.
  apply (proxy_config_failure_502 Demo.imports_noproxy Demo.world
           Demo.world_paid Demo.world_paid
           (Demo.request (Some "https://example.com")) Demo.wallet Demo.claim
           Demo.verified "https://example.com").
  - repeat split.
    exists {| protocol := "https:"; hostname := "example.com" |}.
    split; [reflexivity | exact example_com_not_blocked].
  - reflexivity.
Defined.

Lemma refusal_names_cause_witness :
  handle Demo.imports Demo.world (Demo.request (Some "ftp://example.com/file")) =
    (inr (error_response 400 "Only http:// and https:// URLs are allowed"),
     after Demo.world_paid
       [EvVerifyPayment Demo.claim Demo.wallet PRICE_USDC] []).
Proof.
  apply (refusal_names_cause Demo.imports Demo.world Demo.world_paid
           (Demo.request (Some "ftp://example.com/file")) Demo.wallet
           Demo.claim Demo.verified).
  - repeat split.
  - reflexivity.
  - apply (refused_scheme Demo.imports _ "ftp://example.com/file"
             {| protocol := "ftp:"; hostname := "example.com" |}).
    + split; reflexivity.
    + reflexivity.
    + split; discriminate.
Defined.

Lemma empty_values_are_missing_witness :
  handle Demo.imports_blank Demo.world (Demo.request None) =
    (inr (error_response 500 "Service misconfigured: WALLET_ADDRESS not set"),
     fresh Demo.world).
Proof.
  apply (empty_values_are_missing Demo.imports_blank Demo.world
           (Demo.request None)).
  reflexivity.
Defined.

(** ** The LinkedIn ids *)

Section LinkedInIds.

Import JsText LinkedIn.

Lemma startsWith_skip (s lit : string) :
  JsString.startsWith s lit = true → s = lit ++ skip (String.length lit) s.
Proof.
  revert s. induction lit as [|a lit IH]; intros s H; [reflexivity|].
  destruct s as [|b s]; [discriminate H|].
  change (JsString.startsWith (String b s) (String a lit))
    with (Ascii.eqb a b && JsString.startsWith s lit) in H.
  apply andb_true_iff in H as [Hab H]. apply Ascii.eqb_eq in Hab as ->.
  rewrite append_cons. cbn [String.length skip]. f_equal. by apply IH.
Qed.

Lemma take_while_all (f : ascii → bool) (s : string) :
  all_chars f (take_while f s) = true.
Proof.
  induction s as [|c s IH]; [reflexivity|]. cbn [take_while].
  destruct (f c) eqn:Hc; [|reflexivity]. cbn [all_chars]. by rewrite Hc.
Qed.

Lemma take_while_split (f : ascii → bool) (s : string) :
  ∃ post, s = take_while f s ++ post ∧
          (post = EmptyString ∨ ∃ c rest, post = String c rest ∧ f c = false).
Proof.
  induction s as [|c s (post & IH & Hpost)].
  - exists EmptyString. split; [reflexivity | by left].
  - cbn [take_while]. destruct (f c) eqn:Hc.
    + exists post. rewrite append_cons, <- IH. by split.
    + exists (String c s). split; [reflexivity|]. right. by exists c, s.
Qed.

(** A run of id characters followed by the end or by another character is
    what [take_while] returns. *)
Lemma take_while_exact (f : ascii → bool) (id post : string) :
  all_chars f id = true →
  (post = EmptyString ∨ ∃ c rest, post = String c rest ∧ f c = false) →
  take_while f (id ++ post) = id.
Proof.
  intros Hid Hpost. induction id as [|c id IH].
  - rewrite append_nil. destruct Hpost as [-> | (c & rest & -> & Hc)];
      [reflexivity|]. cbn [take_while]. by rewrite Hc.
  - cbn [all_chars] in Hid. apply andb_true_iff in Hid as [Hc Hid].
    rewrite append_cons. cbn [take_while]. rewrite Hc. f_equal. by apply IH.
Qed.

Lemma skip_append (lit s : string) : skip (String.length lit) (lit ++ s) = s.
Proof.
  induction lit as [|a lit IH]; [by destruct s|].
  rewrite append_cons. exact IH.
Qed.

Lemma startsWith_append (lit s : string) : JsString.startsWith (lit ++ s) lit = true.
Proof. apply startsWith_spec. by exists s. Qed.

Lemma match_id_unfold (lit s : string) :
  match_id lit s =
    match here lit s with
    | Some id => Some id
    | None => match s with
              | EmptyString => None
              | String _ rest => match_id lit rest
              end
    end.
Proof. destruct s; reflexivity. Qed.

Lemma here_sound (lit s id : string) :
  here lit s = Some id →
  id ≠ EmptyString ∧ all_chars id_char id = true ∧
  ∃ post, s = lit ++ id ++ post ∧
    (post = EmptyString ∨ ∃ c rest, post = String c rest ∧ id_char c = false).
Proof.
  unfold here. destruct (JsString.startsWith s lit) eqn:Hs; [|discriminate].
  pose proof (take_while_all id_char (skip (String.length lit) s)) as Hall.
  destruct (take_while_split id_char (skip (String.length lit) s))
    as (post & Hsplit & Hpost).
  destruct (take_while id_char (skip (String.length lit) s)) as [|c t] eqn:Ht;
    [discriminate|].
  intros [= <-]. split; [discriminate|]. split; [exact Hall|].
  exists post. split; [|exact Hpost].
  rewrite <- Hsplit. by apply startsWith_skip.
Qed.

Lemma here_complete (lit s : string) :
  here lit s = None →
  ¬ ∃ c rest, s = lit ++ String c rest ∧ id_char c = true.
Proof.
  unfold here. intros H (c & rest & -> & Hc).
  rewrite startsWith_append, skip_append in H.
  cbn [take_while] in H. rewrite Hc in H. discriminate H.
Qed.

Lemma match_id_sound (lit s id : string) :
  match_id lit s = Some id →
  id ≠ EmptyString ∧ all_chars id_char id = true ∧
  ∃ pre post, s = pre ++ lit ++ id ++ post ∧
    (post = EmptyString ∨ ∃ c rest, post = String c rest ∧ id_char c = false).
Proof.
  induction s as [|a s IH]; rewrite match_id_unfold;
    destruct (here lit _) as [id'|] eqn:Hh; try discriminate.
  - intros [= ->]. destruct (here_sound _ _ _ Hh) as (H1 & H2 & post & H3 & H4).
    split; [done|]. split; [done|]. by exists EmptyString, post.
  - intros [= ->]. destruct (here_sound _ _ _ Hh) as (H1 & H2 & post & H3 & H4).
    split; [done|]. split; [done|]. by exists EmptyString, post.
  - intros H. destruct (IH H) as (H1 & H2 & pre & post & -> & H4).
    split; [done|]. split; [done|]. exists (String a pre), post.
    by rewrite append_cons.
Qed.

Lemma match_id_none (lit s : string) :
  lit ≠ EmptyString →
  match_id lit s = None →
  ¬ ∃ pre c rest, s = pre ++ lit ++ String c rest ∧ id_char c = true.
Proof.
  intros Hlit. induction s as [|a s IH]; rewrite match_id_unfold;
    destruct (here lit _) as [id'|] eqn:Hh; try discriminate.
  - intros _ (pre & c & rest & E & Hc). apply (here_complete _ _ Hh).
    destruct pre; [by exists c, rest | discriminate E].
  - intros H (pre & c & rest & E & Hc). destruct pre as [|b pre].
    + apply (here_complete _ _ Hh). by exists c, rest.
    + rewrite append_cons in E. injection E as -> ->.
      apply (IH H). by exists pre, c, rest.
Qed.

Lemma match_id_some (lit s : string) :
  (∃ pre c rest, s = pre ++ lit ++ String c rest ∧ id_char c = true) →
  is_Some (match_id lit s).
Proof.
  intros (pre & c & rest & -> & Hc).
  induction pre as [|b pre IH]; rewrite match_id_unfold.
  - rewrite append_nil. unfold here.
    rewrite startsWith_append, skip_append. cbn [take_while]. rewrite Hc.
    by eexists.
  - destruct (here lit _); [by eexists|]. rewrite append_cons. exact IH.
Qed.

(** A character that cannot start [lit] is stepped over. *)
Lemma match_id_step (lit : string) (c : ascii) (s : string) :
  JsString.startsWith (String c s) lit = false →
  match_id lit (String c s) = match_id lit s.
Proof. intros H. rewrite match_id_unfold. unfold here. by rewrite H. Qed.

Lemma match_id_exact (lit id post : string) :
  id ≠ EmptyString → all_chars id_char id = true →
  (post = EmptyString ∨ ∃ c rest, post = String c rest ∧ id_char c = false) →
  match_id lit (lit ++ id ++ post) = Some id.
Proof.
  intros Hne Hid Hpost. rewrite match_id_unfold. unfold here.
  rewrite startsWith_append, skip_append, (take_while_exact _ _ _ Hid Hpost).
  by destruct id.
Qed.

End LinkedInIds.

(** X9. An id extracted from a URL is never empty, holds no slash and no
    question mark, and stands in the URL right after [linkedin.com/in/]
    (for a company, [linkedin.com/company/]), up to the end of the URL or
    the next slash or question mark. *)
Theorem linkedin_id_sound (url id : string) :
  (LinkedIn.extractProfileId url = Some id →
   id ≠ EmptyString ∧ JsText.all_chars LinkedIn.id_char id = true ∧
   ∃ pre post,
     url = pre ++ "linkedin.com/in/" ++ id ++ post ∧
     (post = EmptyString ∨
      ∃ c rest, post = String c rest ∧ LinkedIn.id_char c = false)) ∧
  (LinkedIn.extractCompanyId url = Some id →
   id ≠ EmptyString ∧ JsText.all_chars LinkedIn.id_char id = true ∧
   ∃ pre post,
     url = pre ++ "linkedin.com/company/" ++ id ++ post ∧
     (post = EmptyString ∨
      ∃ c rest, post = String c rest ∧ LinkedIn.id_char c = false)).
Proof. split; apply match_id_sound. Qed.

Lemma linkedin_id_sound_witness :
  ∃ pre post,
    "https://www.linkedin.com/company/acme-inc/about"
      = pre ++ "linkedin.com/company/" ++ "acme-inc" ++ post.
Proof.
  destruct (linkedin_id_sound
              "https://www.linkedin.com/company/acme-inc/about" "acme-inc")
    as [_ H].
  destruct (H eq_refl) as (_ & _ & pre & post & E & _).
  by exists pre, post.
Defined.

(** X10. A profile id is found exactly when [linkedin.com/in/] occurs in
    the URL followed by a character other than a slash or a question mark;
    likewise a company id with [linkedin.com/company/]. Otherwise the
    result is [null]. *)
Theorem linkedin_id_found_iff (url : string) :
  (is_Some (LinkedIn.extractProfileId url) ↔
   ∃ pre c rest, url = pre ++ "linkedin.com/in/" ++ String c rest ∧
                 LinkedIn.id_char c = true) ∧
  (is_Some (LinkedIn.extractCompanyId url) ↔
   ∃ pre c rest, url = pre ++ "linkedin.com/company/" ++ String c rest ∧
                 LinkedIn.id_char c = true).
Proof.
  split; (split; [|apply match_id_some]); intros [id H];
    unfold LinkedIn.extractProfileId, LinkedIn.extractCompanyId in H;
    destruct (match_id_sound _ _ _ H) as (Hne & Hall & pre & post & -> & _);
    destruct id as [|c id]; try done;
    cbn [JsText.all_chars] in Hall; apply andb_true_iff in Hall as [Hc _];
    exists pre, c, (id ++ post); by rewrite append_cons.
Qed.

(** X11. Building a profile URL from an id and reading it back gives the
    id: for a non-empty id without slash or question mark, and a rest that
    is empty or begins with one of the two, the id of
    [https://www.linkedin.com/in/<id><rest>] is [<id>]; likewise for a
    company URL. *)
Theorem linkedin_url_round_trip (id post : string) :
  id ≠ EmptyString →
  JsText.all_chars LinkedIn.id_char id = true →
  (post = EmptyString ∨
   ∃ c rest, post = String c rest ∧ LinkedIn.id_char c = false) →
  LinkedIn.extractProfileId ("https://www.linkedin.com/in/" ++ id ++ post)
    = Some id ∧
  LinkedIn.extractCompanyId ("https://www.linkedin.com/company/" ++ id ++ post)
    = Some id.
Proof.
  intros Hne Hid Hpost.
  unfold LinkedIn.extractProfileId, LinkedIn.extractCompanyId. split.
  - change ("https://www.linkedin.com/in/" ++ id ++ post)
      with ("https://www." ++ "linkedin.com/in/" ++ id ++ post).
    repeat (rewrite append_cons; rewrite match_id_step by reflexivity).
    rewrite append_nil. by apply match_id_exact.
  - change ("https://www.linkedin.com/company/" ++ id ++ post)
      with ("https://www." ++ "linkedin.com/company/" ++ id ++ post).
    repeat (rewrite append_cons; rewrite match_id_step by reflexivity).
    rewrite append_nil. by apply match_id_exact.
Qed.

Lemma linkedin_url_round_trip_witness :
  LinkedIn.extractProfileId ("https://www.linkedin.com/in/" ++ "jane-doe" ++ "/?trk=x")
    = Some "jane-doe".
Proof.
  apply (linkedin_url_round_trip "jane-doe" "/?trk=x").
  - discriminate.
  - reflexivity.
  - right. by exists "/"%char, "?trk=x".
Defined.

(** ** Enrichment, one URL and many *)

Section Enrichment.

Import LinkedIn.

Lemma enrichPerson_found (now url id : string) :
  extractProfileId url = Some id →
  enrichPerson now url =
    inr {| person_url := url; profile_id := id; person_name := "John Doe";
           headline := "Software Engineer"; company := "Tech Corp";
           person_location := "San Francisco, CA"; connections := 500;
           skills := ["JavaScript"; "Node.js"; "React"; "TypeScript"];
           person_enriched_at := now |}.
Proof.
  intros H. unfold enrichPerson. rewrite H.
  destruct (match_id_sound _ _ _ H) as [Hne _]. by destruct id.
Qed.

Lemma enrichCompany_found (now url id : string) :
  extractCompanyId url = Some id →
  enrichCompany now url =
    inr {| company_url := url; company_id := id; company_name := "Tech Corp";
           industry := "Software Development"; size := "1000-5000 employees";
           headquarters := "San Francisco, CA"; website := "https://techcorp.com";
           followers := 10000; company_enriched_at := now |}.
Proof.
  intros H. unfold enrichCompany. rewrite H.
  destruct (match_id_sound _ _ _ H) as [Hne _]. by destruct id.
Qed.

End Enrichment.

(** X12. [enrichPeopleBatch] is all or nothing. If every URL holds a
    profile id, the result has one person per URL, in order, each with its
    URL, the id extracted from it and the clock reading of its call. If
    some URL holds none, the whole batch is rejected with "Invalid LinkedIn
    profile URL" and no person is returned. *)
Theorem people_batch_all_or_nothing (clock : nat → string) (urls : list string) :
  (Forall (λ u, is_Some (LinkedIn.extractProfileId u)) urls →
   ∃ ps, LinkedIn.enrichPeopleBatch clock urls = inr ps ∧
         length ps = length urls ∧
         ∀ (i : nat) (u : string), urls !! i = Some u →
           ∃ p, ps !! i = Some p ∧ LinkedIn.person_url p = u ∧
                LinkedIn.extractProfileId u = Some (LinkedIn.profile_id p) ∧
                LinkedIn.person_enriched_at p = clock i) ∧
  (¬ Forall (λ u, is_Some (LinkedIn.extractProfileId u)) urls →
   LinkedIn.enrichPeopleBatch clock urls =
     inl (LinkedIn.Error "Invalid LinkedIn profile URL")).
Proof.
  unfold LinkedIn.enrichPeopleBatch. revert clock.
  induction urls as [|u urls IH]; intros clock.
  { split; [intros _; exists []; by repeat split | intros H; by destruct H]. }
  cbn [imap LinkedIn.Promise_all].
  change (imap (_ ∘ S) urls)
    with (imap (λ i url, LinkedIn.enrichPerson ((clock ∘ S) i) url) urls).
  destruct (IH (clock ∘ S)) as [IHok IHbad].
  destruct (LinkedIn.extractProfileId u) as [id|] eqn:Hu.
  - rewrite (enrichPerson_found (clock 0%nat) u id Hu). split.
    + intros Hall. apply Forall_cons in Hall as [_ Hall].
      destruct (IHok Hall) as (ps & -> & Hlen & Hps).
      eexists. split; [reflexivity|]. split; [cbn; by rewrite Hlen|].
      intros [|i] u' Hi; cbn in Hi.
      * injection Hi as <-. eexists. by repeat split.
      * destruct (Hps i u' Hi) as (p & ? & ? & ? & ?). by exists p.
    + intros Hbad. rewrite IHbad; [done|].
      intros Hall. apply Hbad. constructor; [by eexists | done].
  - assert (LinkedIn.enrichPerson (clock 0%nat) u
            = inl (LinkedIn.Error "Invalid LinkedIn profile URL")) as ->
      by (unfold LinkedIn.enrichPerson; by rewrite Hu).
    split; [|done]. intros Hall. apply Forall_cons in Hall as [[x Hx] _].
    congruence.
Qed.

Lemma people_batch_all_or_nothing_witness :
  LinkedIn.enrichPeopleBatch (λ _, "2026-01-01T00:00:00.000Z")
    [ "https://www.linkedin.com/in/jane"; "https://www.linkedin.com/company/acme" ]
  = inl (LinkedIn.Error "Invalid LinkedIn profile URL").
Proof.
  apply people_batch_all_or_nothing.
  intros H. apply Forall_cons in H as [_ H]. apply Forall_cons in H as [[x Hx] _].
  discriminate Hx.
Defined.

(** X13. [enrichCompaniesBatch] is all or nothing in the same way, with the
    company id and "Invalid LinkedIn company URL". *)
Theorem companies_batch_all_or_nothing (clock : nat → string)
    (urls : list string) :
  (Forall (λ u, is_Some (LinkedIn.extractCompanyId u)) urls →
   ∃ cs, LinkedIn.enrichCompaniesBatch clock urls = inr cs ∧
         length cs = length urls ∧
         ∀ (i : nat) (u : string), urls !! i = Some u →
           ∃ c, cs !! i = Some c ∧ LinkedIn.company_url c = u ∧
                LinkedIn.extractCompanyId u = Some (LinkedIn.company_id c) ∧
                LinkedIn.company_enriched_at c = clock i) ∧
  (¬ Forall (λ u, is_Some (LinkedIn.extractCompanyId u)) urls →
   LinkedIn.enrichCompaniesBatch clock urls =
     inl (LinkedIn.Error "Invalid LinkedIn company URL")).
Proof.
  unfold LinkedIn.enrichCompaniesBatch. revert clock.
  induction urls as [|u urls IH]; intros clock.
  { split; [intros _; exists []; by repeat split | intros H; by destruct H]. }
  cbn [imap LinkedIn.Promise_all].
  change (imap (_ ∘ S) urls)
    with (imap (λ i url, LinkedIn.enrichCompany ((clock ∘ S) i) url) urls).
  destruct (IH (clock ∘ S)) as [IHok IHbad].
  destruct (LinkedIn.extractCompanyId u) as [id|] eqn:Hu.
  - rewrite (enrichCompany_found (clock 0%nat) u id Hu). split.
    + intros Hall. apply Forall_cons in Hall as [_ Hall].
      destruct (IHok Hall) as (cs & -> & Hlen & Hcs).
      eexists. split; [reflexivity|]. split; [cbn; by rewrite Hlen|].
      intros [|i] u' Hi; cbn in Hi.
      * injection Hi as <-. eexists. by repeat split.
      * destruct (Hcs i u' Hi) as (c & ? & ? & ? & ?). by exists c.
    + intros Hbad. rewrite IHbad; [done|].
      intros Hall. apply Hbad. constructor; [by eexists | done].
  - assert (LinkedIn.enrichCompany (clock 0%nat) u
            = inl (LinkedIn.Error "Invalid LinkedIn company URL")) as ->
      by (unfold LinkedIn.enrichCompany; by rewrite Hu).
    split; [|done]. intros Hall. apply Forall_cons in Hall as [[x Hx] _].
    congruence.
Qed.

Lemma companies_batch_all_or_nothing_witness :
  ∃ cs,
    LinkedIn.enrichCompaniesBatch (λ i, if i is O then "t0" else "t1")
      [ "https://www.linkedin.com/company/acme";
        "linkedin.com/company/globex?ref=1" ] = inr cs ∧
    length cs = 2%nat.
Proof.
  destruct (companies_batch_all_or_nothing (λ i, if i is O then "t0" else "t1")
              [ "https://www.linkedin.com/company/acme";
                "linkedin.com/company/globex?ref=1" ]) as [H _].
  destruct H as (cs & E & Hlen & _).
  - repeat constructor; by eexists.
  - by exists cs.
Defined.

(** ** The scrapers and the proof script *)

Lemma slice0_nonneg {A : Type} (l : list A) (n : Z) :
  (0 <= n)%Z →
  JsText.slice0 l n = take (Z.to_nat n) l ∧
  (Z.of_nat (length (JsText.slice0 l n)) <= n)%Z.
Proof.
  intros Hn. unfold JsText.slice0.
  destruct (n <? 0)%Z eqn:Hneg; [apply Z.ltb_lt in Hneg; lia|].
  split; [reflexivity|]. rewrite length_take. lia.
Qed.

Lemma slice0_negative {A : Type} (l : list A) (n : Z) :
  (n < 0)%Z →
  JsText.slice0 l n = take (length l - Z.to_nat (- n)) l.
Proof.
  intros Hn. unfold JsText.slice0.
  apply Z.ltb_lt in Hn as Hneg. rewrite Hneg. f_equal. lia.
Qed.

(** X14. A scraper refuses a response that is not OK: it throws an error
    whose message is "Indeed fetch failed: " (or "LinkedIn fetch
    failed: "), the status and the status text, and neither reads nor
    parses the body. *)
Theorem scrape_refuses_bad_status {W L : Type}
    (proxyFetch : string → W → (Exn + Jobs.Page) * W)
    (encodeURIComponent : string → string) (show : Z → string)
    (parseIndeed parseLinkedIn : string → list L)
    (query location : string) (limit : Z) (w w' : W) (page : Jobs.Page) :
  Jobs.ok page = false →
  (proxyFetch ("https://www.indeed.com/jobs?q=" ++ encodeURIComponent query
                 ++ "&l=" ++ encodeURIComponent location) w = (inr page, w') →
   Jobs.scrapeIndeed proxyFetch encodeURIComponent show parseIndeed
     query location limit w =
     (inl {| message := JString ("Indeed fetch failed: "
                                   ++ show (Jobs.page_status page) ++ " "
                                   ++ Jobs.statusText page) |}, w')) ∧
  (proxyFetch ("https://www.linkedin.com/jobs/search?keywords="
                 ++ encodeURIComponent query ++ "&location="
                 ++ encodeURIComponent location) w = (inr page, w') →
   Jobs.scrapeLinkedIn proxyFetch encodeURIComponent show parseLinkedIn
     query location limit w =
     (inl {| message := JString ("LinkedIn fetch failed: "
                                   ++ show (Jobs.page_status page) ++ " "
                                   ++ Jobs.statusText page) |}, w')).
Proof.
  intros Hok. unfold Jobs.scrapeIndeed, Jobs.scrapeLinkedIn, Jobs.scrape.
  split; intros ->; by rewrite Hok.
Qed.

(** X15. The listings [scrapeIndeed] returns come from an OK response whose
    body was read, and are cut by [limit]: for a limit of 0 or more, at
    most [limit] listings, the first ones the parser found, in page order;
    for a negative limit, all but the last [-limit]. *)
Theorem scrapeIndeed_listings {W L : Type}
    (proxyFetch : string → W → (Exn + Jobs.Page) * W)
    (encodeURIComponent : string → string) (show : Z → string)
    (parseIndeed : string → list L)
    (query location : string) (limit : Z) (w w' : W) (ls : list L) :
  Jobs.scrapeIndeed proxyFetch encodeURIComponent show parseIndeed
    query location limit w = (inr ls, w') →
  ∃ page html,
    proxyFetch ("https://www.indeed.com/jobs?q=" ++ encodeURIComponent query
                  ++ "&l=" ++ encodeURIComponent location) w = (inr page, w') ∧
    Jobs.ok page = true ∧ Jobs.page_text page = inr html ∧
    ((0 <= limit)%Z →
       ls = take (Z.to_nat limit) (parseIndeed html) ∧
       (Z.of_nat (length ls) <= limit)%Z) ∧
    ((limit < 0)%Z →
       ls = take (length (parseIndeed html) - Z.to_nat (- limit))
                 (parseIndeed html)).
Proof.
  unfold Jobs.scrapeIndeed, Jobs.scrape.
  destruct (proxyFetch _ w) as [[e|page] w1]; [discriminate|].
  destruct (Jobs.ok page) eqn:Hok; cbn [negb]; [|discriminate].
  destruct (Jobs.page_text page) as [e|html] eqn:Ht; [discriminate|].
  intros [= <- <-]. exists page, html. repeat split; try done.
  - by apply slice0_nonneg.
  - by apply slice0_nonneg.
  - by apply slice0_negative.
Qed.

(** The clamp [Math.max(1, Math.min(50, parsed || 10))] lands in 1..50. *)
Lemma clamp_runs_bounds (parsed : option Z) :
  (1 <= ProofIndeed.clamp_runs parsed <= 50)%Z.
Proof. unfold ProofIndeed.clamp_runs. destruct parsed as [[|n|n]|]; lia. Qed.

(** X16. The number of runs of the proof script is between 1 and 50
    whatever the third argument is: it is 10 when the argument does not
    parse or parses to 0, the parsed number when that lies between 1 and
    50, 1 below that and 50 above. *)
Theorem runs_between_1_and_50 (parseInt : string → option Z)
    (argv : list string) :
  let parsed := parseInt (ProofIndeed.runsRaw argv) in
  let runs := ProofIndeed.runs parseInt argv in
  (1 <= runs <= 50)%Z ∧
  (parsed = None ∨ parsed = Some 0%Z → runs = 10%Z) ∧
  (∀ n, parsed = Some n → (1 <= n <= 50)%Z → runs = n) ∧
  (∀ n, parsed = Some n → (n < 0)%Z → runs = 1%Z) ∧
  (∀ n, parsed = Some n → (50 < n)%Z → runs = 50%Z) ∧
  (length argv < 3 → ProofIndeed.runsRaw argv = "10")%nat.
Proof.
  cbn zeta. unfold ProofIndeed.runs, ProofIndeed.clamp_runs.
  repeat split.
  - destruct (parseInt _) as [[|n|n]|]; lia.
  - destruct (parseInt _) as [[|n|n]|]; lia.
  - intros [-> | ->]; reflexivity.
  - intros n -> Hn. destruct n; lia.
  - intros n -> Hn. destruct n; lia.
  - intros n -> Hn. destruct n; lia.
  - intros Hlen. unfold ProofIndeed.runsRaw.
    by rewrite lookup_ge_None_2 by lia.
Qed.

Section Collect.

Import ProofIndeed.

Context {W L : Type}.
Variable scrapeIndeed : string → string → Z → W → (Exn + list L) * W.
Variable now : W → string.
Variable sleep : Z → W → W.
Variable toString : Exn → string.
Variable argv : list string.
Variable w : W.

Let state (n : nat) : list (Entry L) * W :=
  rounds scrapeIndeed now sleep toString argv w n.

(** The entry that round [i] pushes, from the state the rounds before it
    left. *)
Let pushed (i : nat) (e : Entry L) : Prop :=
  match scrapeIndeed (query argv) (location argv) 20 (state i).2 with
  | (inr results, _) =>
      e = Succeeded i (now (state i).2) (length results) (take 3 results)
  | (inl err, _) =>
      e = Failed i (now (state i).2)
            (if JsText.truthy (message err) then message err
             else JString (toString err))
  end.

Lemma rounds_S (n : nat) :
  state (S n) = iteration scrapeIndeed now sleep toString argv n (state n).
Proof.
  unfold state, rounds. rewrite seq_S, foldl_app. reflexivity.
Qed.

Lemma collect_invariant (n : nat) :
  length (state n).1 = n ∧ ∀ i e, (state n).1 !! i = Some e → pushed i e.
Proof.
  induction n as [|n [Hlen Hall]].
  { split; [reflexivity|]. intros i e H. cbn in H. by rewrite lookup_nil in H. }
  rewrite rounds_S. unfold iteration.
  assert (∀ e, pushed n e ↔
            match scrapeIndeed (query argv) (location argv) 20 (state n).2 with
            | (inr results, _) =>
                e = Succeeded n (now (state n).2) (length results)
                      (take 3 results)
            | (inl err, _) =>
                e = Failed n (now (state n).2)
                      (if JsText.truthy (message err) then message err
                       else JString (toString err))
            end) as Hn by done.
  destruct (state n) as [all w1]. cbn [fst snd] in *.
  destruct (scrapeIndeed _ _ 20%Z w1) as [[err|results] w2]; cbn [fst].
  - split; [rewrite length_app; cbn; lia|].
    intros i x Hi. apply lookup_app_Some in Hi as [Hi | [Hge Hi]];
      [by apply Hall|].
    apply list_lookup_singleton_Some in Hi as [Hi <-].
    assert (i = n) as -> by lia. by apply Hn.
  - split; [rewrite length_app; cbn; lia|].
    intros i x Hi. apply lookup_app_Some in Hi as [Hi | [Hge Hi]];
      [by apply Hall|].
    apply list_lookup_singleton_Some in Hi as [Hi <-].
    assert (i = n) as -> by lia. apply Hn.
    by destruct (slice0_nonneg results 3 ltac:(lia)) as [-> _].
Qed.

End Collect.

(** X17. The loop of the proof script records exactly one entry per run,
    whether the scrape succeeded or threw, and later rounds leave it as it
    is: [all] has [runs] entries, and the entry at position [i] is the one
    round [i] made from the state the rounds before it left. For a scrape
    that returned, it holds [i], the time the round started, the number of
    results and the first three of them (all when there are fewer); for a
    scrape that threw, the message of the error, or the error as a string
    when it has none. *)
Theorem one_entry_per_run {W L : Type} (parseInt : string → option Z)
    (scrapeIndeed : string → string → Z → W → (Exn + list L) * W)
    (now : W → string) (sleep : Z → W → W) (toString : Exn → string)
    (argv : list string) (w : W) :
  let all := (ProofIndeed.collect parseInt scrapeIndeed now sleep toString
                argv w).1 in
  Z.of_nat (length all) = ProofIndeed.runs parseInt argv ∧
  (1 <= length all <= 50)%nat ∧
  ∀ (i : nat) (e : ProofIndeed.Entry L), all !! i = Some e →
    let before :=
      (ProofIndeed.rounds scrapeIndeed now sleep toString argv w i).2 in
    match scrapeIndeed (ProofIndeed.query argv) (ProofIndeed.location argv)
            20%Z before with
    | (inr results, _) =>
        e = ProofIndeed.Succeeded i (now before) (length results)
              (take 3 results)
    | (inl err, _) =>
        e = ProofIndeed.Failed i (now before)
              (if JsText.truthy (message err) then message err
               else JString (toString err))
    end.
Proof.
  cbn zeta.
  pose proof (clamp_runs_bounds (parseInt (ProofIndeed.runsRaw argv))) as Hruns.
  fold (ProofIndeed.runs parseInt argv) in Hruns.
  destruct (collect_invariant scrapeIndeed now sleep toString argv w
              (Z.to_nat (ProofIndeed.runs parseInt argv)))
    as [Hlen Hall].
  change (ProofIndeed.rounds scrapeIndeed now sleep toString argv w
            (Z.to_nat (ProofIndeed.runs parseInt argv)))
    with (ProofIndeed.collect parseInt scrapeIndeed now sleep toString argv w)
    in Hlen, Hall.
  rewrite Hlen. split; [lia|]. split; [lia|]. exact Hall.
Qed.

Lemma scrapeIndeed_at_most {W L : Type}
    (proxyFetch : string → W → (Exn + Jobs.Page) * W)
    (encodeURIComponent : string → string) (show : Z → string)
    (parseIndeed : string → list L) (q l : string) (w w' : W) (ls : list L) :
  Jobs.scrapeIndeed proxyFetch encodeURIComponent show parseIndeed q l 20 w
    = (inr ls, w') →
  (length ls ≤ 20)%nat.
Proof.
  unfold Jobs.scrapeIndeed, Jobs.scrape.
  destruct (proxyFetch _ w) as [[e|page] w1]; [discriminate|].
  destruct (negb (Jobs.ok page)); [discriminate|].
  destruct (Jobs.page_text page) as [e|html]; [discriminate|].
  intros [= <- <-].
  destruct (slice0_nonneg (parseIndeed html) 20 ltac:(lia)) as [_ H]. lia.
Qed.

(** X18. Run on the real [scrapeIndeed], the proof script never records
    more than 20 results for a run, and never more than 3 sample listings. *)
Theorem entries_bounded {W L : Type} (parseInt : string → option Z)
    (proxyFetch : string → W → (Exn + Jobs.Page) * W)
    (encodeURIComponent : string → string) (show : Z → string)
    (parseIndeed : string → list L)
    (now : W → string) (sleep : Z → W → W) (toString : Exn → string)
    (argv : list string) (w : W) (i count : nat) (startedAt : string)
    (sample : list L) :
  (ProofIndeed.collect parseInt
     (Jobs.scrapeIndeed proxyFetch encodeURIComponent show parseIndeed)
     now sleep toString argv w).1 !! i
    = Some (ProofIndeed.Succeeded i startedAt count sample) →
  (count ≤ 20)%nat ∧ (length sample ≤ 3)%nat ∧ (length sample ≤ count)%nat.
Proof.
  intros Hi.
  destruct (collect_invariant
              (Jobs.scrapeIndeed proxyFetch encodeURIComponent show parseIndeed)
              now sleep toString argv w
              (Z.to_nat (ProofIndeed.runs parseInt argv)))
    as [_ Hall].
  specialize (Hall i _ Hi). cbv zeta in Hall.
  destruct (Jobs.scrapeIndeed _ _ _ _ _ _ _ _) as [[err|results] w'] eqn:Hs;
    [discriminate|].
  injection Hall as _ -> ->. apply scrapeIndeed_at_most in Hs.
  rewrite length_take. lia.
Qed.

(** ** The review summary *)

Section Summary.

Import Reviews.

Lemma percents_checked : percents_ok = true.
Proof. vm_compute. reflexivity. Qed.

Lemma percent_capped (a b : nat) :
  (1 ≤ b ≤ REVIEW_CAP)%nat → (a ≤ b)%nat →
  ∃ z, Number.percent a b = Some z ∧
       (0 <= z <= 100)%Z ∧
       (- Z.of_nat b <= 2 * Z.of_nat b * z - 200 * Z.of_nat a <= Z.of_nat b)%Z ∧
       (z = 0%Z ↔ a = 0%nat) ∧ (z = 100%Z ↔ a = b).
Proof.
  intros Hb Ha. pose proof percents_checked as H. unfold percents_ok in H.
  rewrite forallb_forall in H.
  specialize (H b ltac:(apply in_seq; unfold REVIEW_CAP in *; lia)).
  rewrite forallb_forall in H. specialize (H a ltac:(apply in_seq; lia)).
  unfold percent_ok in H. destruct (Number.percent a b) as [z|]; [|discriminate].
  exists z. split; [reflexivity|].
  repeat (apply andb_true_iff in H as [H ?]).
  repeat match goal with
         | X : (_ <=? _)%Z = true |- _ => apply Z.leb_le in X
         | X : Bool.eqb _ _ = true |- _ => apply Bool.eqb_prop in X
         end.
  repeat split; try lia.
  - intros ->. apply Nat.eqb_eq. by rewrite <- H1.
  - intros ->. apply Z.eqb_eq. by rewrite H1.
  - intros ->. apply Nat.eqb_eq. match goal with X : _ = (a =? b)%nat |- _ => by rewrite <- X end.
  - intros ->. apply Z.eqb_eq. match goal with X : _ = (b =? b)%nat |- _ => rewrite X end.
    apply Nat.eqb_refl.
Qed.

Lemma sentiment_partition (l : list ReviewData) :
  (length (List.filter (λ r, (4 <=? rating r)%Z) l)
   + length (List.filter (λ r, (rating r =? 3)%Z) l)
   + length (List.filter (λ r, (rating r <=? 2)%Z) l) = length l)%nat.
Proof.
  induction l as [|r l IH]; [reflexivity|]. cbn [List.filter].
  destruct (4 <=? rating r)%Z eqn:H4, (rating r =? 3)%Z eqn:H3,
           (rating r <=? 2)%Z eqn:H2; cbn [length]; lia.
Qed.

Lemma responded_all (l : list ReviewData) :
  length (List.filter responded l) = length l ↔ Forall (λ r, responded r = true) l.
Proof.
  induction l as [|r l IH]; [by split|]. cbn [List.filter].
  pose proof (filter_length_le responded l).
  destruct (responded r) eqn:Hr; cbn [length].
  - split.
    + intros [= H']. constructor; [done | by apply IH].
    + intros Hall. apply Forall_cons in Hall as [_ Hall]. f_equal. by apply IH.
  - split; [lia|]. intros Hall. apply Forall_cons in Hall as [? _]. congruence.
Qed.

Lemma responded_none (l : list ReviewData) :
  length (List.filter responded l) = 0%nat ↔ Forall (λ r, responded r = false) l.
Proof.
  induction l as [|r l IH]; [by split|]. cbn [List.filter].
  destruct (responded r) eqn:Hr; cbn [length].
  - split; [lia|]. intros Hall. apply Forall_cons in Hall as [? _]. congruence.
  - rewrite IH. split; [by constructor|].
    intros Hall. by apply Forall_cons in Hall as [_ ?].
Qed.

End Summary.

(** X19. With no rated review (every rating 0 or less, as for reviews with
    no star found) the sentiment breakdown is 0, 0, 0: the divisor falls
    back to 1. With no review at all the response rate is 0 as well. *)
Theorem summary_of_unrated {D : Type} (reviews : list Reviews.ReviewData)
    (info : Reviews.BusinessInfo) (dist : D) :
  (Forall (λ r, (Reviews.rating r <= 0)%Z) reviews →
   Reviews.sentimentBreakdown (Reviews.calculateSummary reviews info dist) =
     {| Reviews.positive := Some 0%Z; Reviews.neutral := Some 0%Z;
        Reviews.negative := Some 0%Z |}) ∧
  (reviews = [] →
   Reviews.responseRate (Reviews.calculateSummary reviews info dist)
     = Some 0%Z).
Proof.
  split.
  - intros Hall.
    assert (List.filter (λ r, (0 <? Reviews.rating r)%Z) reviews = []) as Hr.
    { induction Hall as [|r l Hr _ IH]; [reflexivity|]. cbn [List.filter].
      by destruct (Z.ltb_spec 0 (Reviews.rating r)); [lia|]. }
    unfold Reviews.calculateSummary. cbn [Reviews.sentimentBreakdown].
    rewrite Hr. reflexivity.
  - intros ->. reflexivity.
Qed.

(** X20. For the at most 50 reviews the callers summarise, the response
    rate is a whole number from 0 to 100, within half a point of the exact
    percentage of reviews with an owner response; it is 100 only when
    every review has a response and 0 only when none has. *)
Theorem response_rate_capped {D : Type} (reviews : list Reviews.ReviewData)
    (info : Reviews.BusinessInfo) (dist : D) :
  (length reviews ≤ Reviews.REVIEW_CAP)%nat →
  ∃ rate,
    Reviews.responseRate (Reviews.calculateSummary reviews info dist)
      = Some rate ∧
    (0 <= rate <= 100)%Z ∧
    (let n := Z.of_nat (length reviews) in
     let k := Z.of_nat (length (List.filter Reviews.responded reviews)) in
     - n <= 2 * n * rate - 200 * k <= n)%Z ∧
    (rate = 100%Z ↔
     reviews ≠ [] ∧ Forall (λ r, Reviews.responded r = true) reviews) ∧
    (rate = 0%Z ↔ Forall (λ r, Reviews.responded r = false) reviews).
Proof.
  intros Hcap. unfold Reviews.calculateSummary. cbn [Reviews.responseRate].
  destruct reviews as [|r0 l] eqn:El.
  { exists 0%Z. cbn. repeat split; try lia; try done. by intros [? _]. }
  rewrite <- El in *. assert (1 ≤ length reviews)%nat as Hpos
    by (rewrite El; cbn; lia).
  assert ((0 <? length reviews)%nat = true) as -> by (apply Nat.ltb_lt; lia).
  destruct (percent_capped (length (List.filter Reviews.responded reviews))
              (length reviews) ltac:(lia) (filter_length_le _ _))
    as (z & -> & Hz & Herr & H0 & H100).
  exists z. split; [done|]. split; [done|]. split; [exact Herr|]. split.
  - rewrite H100, responded_all. split; [|by intros [_ ?]].
    intros H. split; [|done]. rewrite El. discriminate.
  - by rewrite H0, responded_none.
Qed.

Lemma response_rate_capped_witness :
  ∃ rate,
    Reviews.responseRate
      (Reviews.calculateSummary Samples.reviews (Samples.business "Cafe" None) tt)
      = Some rate ∧
    (0 <= rate <= 100)%Z.
Proof.
  destruct (response_rate_capped Samples.reviews (Samples.business "Cafe" None)
              tt) as (rate & E & Hr & _).
  - unfold Reviews.REVIEW_CAP. cbn. lia.
  - by exists rate.
Defined.

(** X21. For the at most 50 reviews the callers summarise, the three
    sentiment percentages are whole numbers from 0 to 100, and when at
    least one review is rated they add up to 99, 100 or 101. *)
Theorem sentiment_capped {D : Type} (reviews : list Reviews.ReviewData)
    (info : Reviews.BusinessInfo) (dist : D) :
  (length reviews ≤ Reviews.REVIEW_CAP)%nat →
  ∃ p n g,
    Reviews.sentimentBreakdown (Reviews.calculateSummary reviews info dist) =
      {| Reviews.positive := Some p; Reviews.neutral := Some n;
         Reviews.negative := Some g |} ∧
    (0 <= p <= 100)%Z ∧ (0 <= n <= 100)%Z ∧ (0 <= g <= 100)%Z ∧
    (Exists (λ r, (0 < Reviews.rating r)%Z) reviews →
     (99 <= p + n + g <= 101)%Z).
Proof.
  intros Hcap. unfold Reviews.calculateSummary.
  cbn [Reviews.sentimentBreakdown].
  set (rated := List.filter (λ r, (0 <? Reviews.rating r)%Z) reviews).
  pose proof (filter_length_le (λ r, (0 <? Reviews.rating r)%Z) reviews) as Hle.
  fold rated in Hle.
  pose proof (sentiment_partition rated) as Hpart.
  set (P := length (List.filter (λ r, (4 <=? Reviews.rating r)%Z) rated)) in *.
  set (N := length (List.filter (λ r, (Reviews.rating r =? 3)%Z) rated)) in *.
  set (G := length (List.filter (λ r, (Reviews.rating r <=? 2)%Z) rated)) in *.
  match goal with |- context [Number.percent P ?t] => set (T := t) in * end.
  assert (1 ≤ T ≤ Reviews.REVIEW_CAP)%nat as HT
    by (subst T; unfold Reviews.REVIEW_CAP in *; destruct (length rated); lia).
  assert (P ≤ T ∧ N ≤ T ∧ G ≤ T)%nat as (HP & HN & HG)
    by (subst T; destruct (length rated); lia).
  destruct (percent_capped P T HT HP) as (p & -> & Hp & Ep & _).
  destruct (percent_capped N T HT HN) as (n & -> & Hn & En & _).
  destruct (percent_capped G T HT HG) as (g & -> & Hg & Eg & _).
  exists p, n, g. split; [reflexivity|].
  split; [lia|]. split; [lia|]. split; [lia|].
  intros Hex.
  assert (T = (P + N + G)%nat) as HTsum.
  { subst T. destruct (length rated) eqn:Hl; [|lia].
    exfalso. apply Exists_exists in Hex as (r & Hin & Hr).
    assert (In r rated) as Hin'.
    { apply filter_In. split; [by apply list_elem_of_In | by apply Z.ltb_lt]. }
    destruct rated; [done | discriminate Hl]. }
  nia.
Qed.

(** ** Search results *)

Section Search.

Import Reviews.
Local Close Scope string_scope.

(** What [addBusiness] keeps true of [seenNames] and [businesses]. *)
Let Inv (f : Found) : Prop :=
  (∀ x, x ∈ seenNames f ↔ x ∈ name <$> businesses f) ∧
  NoDup (name <$> businesses f) ∧
  Forall (λ b, isValidBusinessName (name b) = true) (businesses f).

Lemma addBusiness_kept (info : BusinessInfo) (f : Found) :
  isValidBusinessName (name info) = true → name info ∉ seenNames f →
  addBusiness info f =
    {| seenNames := {[ name info ]} ∪ seenNames f;
       businesses := businesses f ++ [info] |}.
Proof.
  intros Hv Hs. unfold addBusiness. rewrite Hv.
  by rewrite bool_decide_eq_false_2.
Qed.

Lemma addBusiness_dropped (info : BusinessInfo) (f : Found) :
  isValidBusinessName (name info) = false ∨ name info ∈ seenNames f →
  addBusiness info f = f.
Proof.
  intros [Hv | Hs]; unfold addBusiness.
  - by rewrite Hv.
  - rewrite (bool_decide_eq_true_2 _ Hs). by rewrite andb_false_r.
Qed.

Lemma addBusiness_cases (info : BusinessInfo) (f : Found) :
  (isValidBusinessName (name info) = true ∧ name info ∉ seenNames f) ∨
  (isValidBusinessName (name info) = false ∨ name info ∈ seenNames f).
Proof.
  destruct (isValidBusinessName (name info)); [|by right; left].
  destruct (decide (name info ∈ seenNames f)); [by right; right | by left].
Qed.

Lemma addBusiness_inv (info : BusinessInfo) (f : Found) :
  Inv f → Inv (addBusiness info f).
Proof.
  intros (Hseen & Hnd & Hval).
  destruct (addBusiness_cases info f) as [[Hv Hs] | Hd].
  2: { by rewrite (addBusiness_dropped info f Hd). }
  rewrite (addBusiness_kept info f Hv Hs). split; [|split]; cbn.
  - intros x. rewrite fmap_app, elem_of_app, elem_of_union, Hseen.
    cbn. rewrite list_elem_of_singleton, elem_of_singleton. tauto.
  - rewrite fmap_app. apply NoDup_app. split; [done|]. split.
    + intros x Hx. cbn. rewrite list_elem_of_singleton. intros ->.
      by apply Hs, Hseen.
    + cbn. apply NoDup_singleton.
  - apply Forall_app. split; [done|]. by constructor.
Qed.

Lemma addAll_snoc (infos : list BusinessInfo) (info : BusinessInfo) (f : Found) :
  addAll (infos ++ [info]) f = addBusiness info (addAll infos f).
Proof. unfold addAll. by rewrite foldl_app. Qed.

Lemma addAll_app (l1 l2 : list BusinessInfo) (f : Found) :
  addAll (l1 ++ l2) f = addAll l2 (addAll l1 f).
Proof. unfold addAll. by rewrite foldl_app. Qed.

Lemma addAll_inv (infos : list BusinessInfo) (f : Found) :
  Inv f → Inv (addAll infos f).
Proof.
  induction infos as [|info infos IH] using rev_ind; [done|].
  intros Hf. rewrite addAll_snoc. by apply addBusiness_inv, IH.
Qed.

Lemma nothing_inv : Inv nothing.
Proof.
  split; [|split]; cbn; [|constructor|constructor].
  intros x. rewrite elem_of_nil. set_solver.
Qed.

(** [addAll] only appends, and only candidates. *)
Lemma addAll_extends (infos : list BusinessInfo) (f : Found) :
  ∃ more, businesses (addAll infos f) = businesses f ++ more ∧
          more `sublist_of` infos.
Proof.
  induction infos as [|info infos (more & E & Hsub)] using rev_ind.
  { exists []. by rewrite app_nil_r. }
  rewrite addAll_snoc.
  destruct (addBusiness_cases info (addAll infos f)) as [[Hv Hs] | Hd].
  - rewrite (addBusiness_kept _ _ Hv Hs). cbn. exists (more ++ [info]).
    rewrite E, <- app_assoc. split; [done|]. by apply sublist_app.
  - rewrite (addBusiness_dropped _ _ Hd). exists more. split; [done|].
    by apply sublist_inserts_r.
Qed.

(** Once something is found, it stays found. *)
Lemma addAll_found (infos : list BusinessInfo) (f : Found) :
  found_none f = false → found_none (addAll infos f) = false.
Proof.
  intros Hf. destruct (addAll_extends infos f) as (more & E & _).
  unfold found_none in *. rewrite E. by destruct (businesses f).
Qed.

Lemma addAll_valid_found (infos : list BusinessInfo) (f : Found) :
  Inv f →
  Exists (λ b, isValidBusinessName (name b) = true) infos →
  found_none (addAll infos f) = false.
Proof.
  intros Hf. induction infos as [|info infos IH] using rev_ind.
  { intros H. by apply Exists_nil in H. }
  intros Hex. rewrite addAll_snoc. apply Exists_app in Hex as [Hex | Hex].
  - specialize (IH Hex).
    destruct (addBusiness_cases info (addAll infos f)) as [[Hv Hs] | Hd].
    + rewrite (addBusiness_kept _ _ Hv Hs). unfold found_none. cbn.
      by destruct (businesses (addAll infos f)).
    + by rewrite (addBusiness_dropped _ _ Hd).
  - apply Exists_cons in Hex as [Hv | Hex]; [|by apply Exists_nil in Hex].
    destruct (addBusiness_cases info (addAll infos f)) as [[_ Hs] | [Hd | Hs]].
    + rewrite (addBusiness_kept _ _ Hv Hs). unfold found_none. cbn.
      by destruct (businesses (addAll infos f)).
    + congruence.
    + rewrite (addBusiness_dropped _ _ (or_intror Hs)).
      pose proof (addAll_inv infos f Hf) as (Hseen & _).
      apply Hseen in Hs. unfold found_none.
      destruct (businesses (addAll infos f)); [|done].
      by apply elem_of_nil in Hs.
Qed.

(** The state [extractSearchResults] ends in. *)
Lemma extractSearchResults_state (s1 s2 s3 s4a s4b s5 s6 : list BusinessInfo) :
  ∃ f, extractSearchResults s1 s2 s3 s4a s4b s5 s6 = businesses f ∧ Inv f ∧
       businesses f ⊆ s1 ++ s2 ++ s3 ++ s4a ++ s4b ++ s5 ++ s6.
Proof.
  assert (∀ infos f (X : list BusinessInfo),
            businesses f ⊆ X → infos ⊆ X → businesses (addAll infos f) ⊆ X)
    as Hsub.
  { intros infos f X Hf Hi.
    destruct (addAll_extends infos f) as (more & -> & Hs).
    apply sublist_subseteq in Hs. set_solver. }
  unfold extractSearchResults.
  set (X := s1 ++ s2 ++ s3 ++ s4a ++ s4b ++ s5 ++ s6).
  set (f0 := addAll s3 (addAll s2 (addAll s1 nothing))).
  assert (Inv f0 ∧ businesses f0 ⊆ X) as [H0 S0].
  { split; [do 3 apply addAll_inv; apply nothing_inv|].
    subst f0. do 3 (apply Hsub; [|subst X; set_solver]). cbn. set_solver. }
  set (f1 := if found_none f0
             then if negb (found_none (addAll s4a f0)) then addAll s4a f0
                  else addAll s4b (addAll s4a f0)
             else f0).
  assert (Inv f1 ∧ businesses f1 ⊆ X) as [H1 S1].
  { subst f1. destruct (found_none f0); [|by split].
    destruct (negb (found_none (addAll s4a f0))).
    - split; [apply addAll_inv; exact H0|].
      apply Hsub; [exact S0|]. subst X. set_solver.
    - split; [do 2 apply addAll_inv; exact H0|].
      do 2 (apply Hsub; [|subst X; set_solver]). exact S0. }
  set (f2 := if found_none f1 then addAll s5 f1 else f1).
  assert (Inv f2 ∧ businesses f2 ⊆ X) as [H2 S2].
  { subst f2. destruct (found_none f1); [|by split].
    split; [apply addAll_inv; exact H1|].
    apply Hsub; [exact S1|]. subst X. set_solver. }
  exists (if found_none f2 then addAll s6 f2 else f2). split; [reflexivity|].
  destruct (found_none f2); [|by split].
  split; [apply addAll_inv; exact H2|].
  apply Hsub; [exact S2|]. subst X. set_solver.
Qed.

End Search.

Local Close Scope string_scope.

(** X22. The businesses a search returns have pairwise different names,
    each name passes [isValidBusinessName], and each business is one a
    strategy handed to [addBusiness]. *)
Theorem search_results_distinct_valid
    (s1 s2 s3 s4a s4b s5 s6 : list Reviews.BusinessInfo) :
  let found := Reviews.extractSearchResults s1 s2 s3 s4a s4b s5 s6 in
  NoDup (Reviews.name <$> found) ∧
  Forall (λ b, Reviews.isValidBusinessName (Reviews.name b) = true) found ∧
  found ⊆ s1 ++ s2 ++ s3 ++ s4a ++ s4b ++ s5 ++ s6.
Proof.
  cbn zeta.
  destruct (extractSearchResults_state s1 s2 s3 s4a s4b s5 s6)
    as (f & -> & (_ & Hnd & Hval) & Hsub).
  done.
Qed.

(** X23. The fallback strategies 4, 5 and 6 only count when strategies 1
    to 3 found nothing: as soon as one of their candidates has a valid
    name, the result is what these three found, whatever the fallbacks
    would have offered. *)
Theorem fallbacks_only_when_empty
    (s1 s2 s3 s4a s4b s5 s6 : list Reviews.BusinessInfo) :
  Exists (λ b, Reviews.isValidBusinessName (Reviews.name b) = true)
         (s1 ++ s2 ++ s3) →
  Reviews.extractSearchResults s1 s2 s3 s4a s4b s5 s6 =
    Reviews.businesses (Reviews.addAll (s1 ++ s2 ++ s3) Reviews.nothing).
Proof.
  intros Hex. unfold Reviews.extractSearchResults. cbv zeta.
  rewrite <- !addAll_app.
  pose proof (addAll_valid_found (s1 ++ s2 ++ s3) Reviews.nothing nothing_inv
                Hex) as Hfound.
  repeat (rewrite Hfound; cbn [negb]). reflexivity.
Qed.

(** X24. Among candidates with the same name the first one wins. After a
    run of [addBusiness] calls the kept businesses are candidates in their
    original order, every valid candidate name is represented, and each
    kept business is the first candidate that bears its name: what a later
    candidate of that name carries is dropped. *)
Theorem first_candidate_wins (infos : list Reviews.BusinessInfo) :
  let kept := Reviews.businesses (Reviews.addAll infos Reviews.nothing) in
  kept `sublist_of` infos ∧
  (∀ b, b ∈ infos → Reviews.isValidBusinessName (Reviews.name b) = true →
        Reviews.name b ∈ Reviews.name <$> kept) ∧
  (∀ b, b ∈ kept →
     ∃ i : nat, infos !! i = Some b ∧
       ∀ (j : nat) b', (j < i)%nat → infos !! j = Some b' →
                       Reviews.name b' ≠ Reviews.name b).
Proof.
  cbn zeta. induction infos as [|x infos (Hsub & Hall & Hfirst)] using rev_ind.
  { cbn. split; [done|]. split; [by intros b ?%elem_of_nil|].
    by intros b ?%elem_of_nil. }
  rewrite addAll_snoc.
  pose proof (addAll_inv infos Reviews.nothing nothing_inv) as (Hseen & _ & Hval).
  set (f := Reviews.addAll infos Reviews.nothing) in *.
  assert (∀ b, b ∈ Reviews.businesses f →
            ∃ i : nat, (infos ++ [x]) !! i = Some b ∧
              ∀ (j : nat) b', (j < i)%nat → (infos ++ [x]) !! j = Some b' →
                              Reviews.name b' ≠ Reviews.name b) as Hold.
  { intros b Hb. destruct (Hfirst b Hb) as (i & Hi & Hj).
    exists i. split; [by apply lookup_app_l_Some|].
    intros j b' Hlt Hb'. apply (Hj j b' Hlt).
    apply lookup_lt_Some in Hi.
    by rewrite lookup_app_l in Hb' by lia. }
  destruct (addBusiness_cases x f) as [[Hv Hs] | Hd].
  - rewrite (addBusiness_kept x f Hv Hs). cbn [Reviews.businesses].
    split; [by apply sublist_app|]. split.
    + intros b Hb Hvb. rewrite fmap_app, elem_of_app.
      apply elem_of_app in Hb as [Hb | Hb]; [left; by apply Hall|].
      apply list_elem_of_singleton in Hb as ->. right. cbn.
      by apply list_elem_of_singleton.
    + intros b Hb. apply elem_of_app in Hb as [Hb | Hb]; [by apply Hold|].
      apply list_elem_of_singleton in Hb as ->.
      exists (length infos). split; [by apply list_lookup_middle|].
      intros j b' Hlt Hb' Hname.
      rewrite lookup_app_l in Hb' by lia.
      apply Hs, Hseen. rewrite <- Hname. apply Hall.
      * by eapply list_elem_of_lookup_2.
      * by rewrite Hname.
  - rewrite (addBusiness_dropped x f Hd).
    split; [by apply sublist_inserts_r|]. split; [|exact Hold].
    intros b Hb Hvb. apply elem_of_app in Hb as [Hb | Hb]; [by apply Hall|].
    apply list_elem_of_singleton in Hb as ->.
    destruct Hd as [Hd | Hd]; [congruence | by apply Hseen].
Qed.

Local Open Scope string_scope.

(** ** The scrapers on sample inputs *)

Lemma scrape_refuses_bad_status_witness :
  Jobs.scrapeIndeed Samples.fetch_forbidden Samples.same Samples.show
    Samples.parse25 "rust" "Remote" 20 0%nat =
    (inl {| message := JString ("Indeed fetch failed: " ++ "403" ++ " "
                                  ++ "Forbidden") |}, 1%nat).
Proof.
  apply (scrape_refuses_bad_status Samples.fetch_forbidden Samples.same
           Samples.show Samples.parse25 Samples.parse25 "rust" "Remote" 20
           0%nat 1%nat
           {| Jobs.ok := false; Jobs.page_status := 403;
              Jobs.statusText := "Forbidden";
              Jobs.page_text := inr "blocked" |}).
  - reflexivity.
  - reflexivity.
Defined.

Lemma scrapeIndeed_listings_witness :
  ∃ page html,
    Samples.fetch_ok ("https://www.indeed.com/jobs?q=" ++ Samples.same "rust"
                        ++ "&l=" ++ Samples.same "Remote") 0%nat
      = (inr page, 1%nat) ∧
    Jobs.ok page = true ∧ Jobs.page_text page = inr html.
Proof.
  destruct (scrapeIndeed_listings Samples.fetch_ok Samples.same Samples.show
              Samples.parse25 "rust" "Remote" 20 0%nat 1%nat (seq 1 20))
    as (page & html & H1 & H2 & H3 & _).
  - reflexivity.
  - by exists page, html.
Defined.

Lemma runs_between_1_and_50_witness :
  ProofIndeed.runs Samples.parseInt ["rust"; "Remote"; "200"] = 50%Z ∧
  ProofIndeed.runs Samples.parseInt ["rust"; "Remote"; "abc"] = 10%Z ∧
  ProofIndeed.runs Samples.parseInt ["rust"; "Remote"; "7"] = 7%Z.
Proof.
  split; [|split].
  - destruct (runs_between_1_and_50 Samples.parseInt ["rust"; "Remote"; "200"])
      as (_ & _ & _ & _ & H & _).
    apply (H 200%Z); [reflexivity | lia].
  - destruct (runs_between_1_and_50 Samples.parseInt ["rust"; "Remote"; "abc"])
      as (_ & H & _).
    apply H. by left.
  - destruct (runs_between_1_and_50 Samples.parseInt ["rust"; "Remote"; "7"])
      as (_ & _ & H & _).
    apply (H 7%Z); [reflexivity | lia].
Defined.

Lemma one_entry_per_run_witness :
  ∃ e,
    (ProofIndeed.collect Samples.parseInt
       (Jobs.scrapeIndeed Samples.fetch_ok Samples.same Samples.show
          Samples.parse25)
       Samples.midnight Samples.no_sleep Samples.as_text
       ["rust"; "Remote"; "2"] 0%nat).1 !! 1%nat = Some e ∧
    e = ProofIndeed.Succeeded 1 "2026-01-01T00:00:00.000Z" 20 [1; 2; 3]%nat.
Proof.
  destruct (one_entry_per_run Samples.parseInt
              (Jobs.scrapeIndeed Samples.fetch_ok Samples.same Samples.show
                 Samples.parse25)
              Samples.midnight Samples.no_sleep Samples.as_text
              ["rust"; "Remote"; "2"] 0%nat) as (_ & _ & H).
  eexists. split; [reflexivity|]. exact (H 1%nat _ eq_refl).
Defined.

Lemma entries_bounded_witness :
  (20 ≤ 20)%nat ∧ (length [1; 2; 3]%nat ≤ 3)%nat ∧ (length [1; 2; 3]%nat ≤ 20)%nat.
Proof.
  apply (entries_bounded Samples.parseInt Samples.fetch_ok Samples.same
           Samples.show Samples.parse25 Samples.midnight Samples.no_sleep
           Samples.as_text ["rust"; "Remote"; "2"] 0%nat 1%nat 20%nat
           "2026-01-01T00:00:00.000Z" [1; 2; 3]%nat).
  reflexivity.
Defined.

Lemma summary_of_unrated_witness :
  Reviews.sentimentBreakdown
    (Reviews.calculateSummary [Samples.review "Dee" 0 None]
       (Samples.business "Cafe" None) tt) =
    {| Reviews.positive := Some 0%Z; Reviews.neutral := Some 0%Z;
       Reviews.negative := Some 0%Z |}.
Proof.
  apply (summary_of_unrated [Samples.review "Dee" 0 None]
           (Samples.business "Cafe" None) tt).
  constructor; [cbn; lia | constructor].
Defined.

Lemma sentiment_capped_witness :
  ∃ p n g,
    Reviews.sentimentBreakdown
      (Reviews.calculateSummary Samples.reviews (Samples.business "Cafe" None) tt)
      = {| Reviews.positive := Some p; Reviews.neutral := Some n;
           Reviews.negative := Some g |} ∧
    (99 <= p + n + g <= 101)%Z.
Proof.
  destruct (sentiment_capped Samples.reviews (Samples.business "Cafe" None) tt)
    as (p & n & g & E & _ & _ & _ & H).
  - unfold Reviews.REVIEW_CAP. cbn. lia.
  - exists p, n, g. split; [exact E|]. apply H.
    apply Exists_cons_hd. cbn. lia.
Defined.

Lemma fallbacks_only_when_empty_witness :
  Reviews.extractSearchResults Samples.candidates [] []
    [Samples.business "Fallback Diner" None] [] [] [] =
    Reviews.businesses
      (Reviews.addAll (Samples.candidates ++ [] ++ [])%list Reviews.nothing).
Proof.
  apply fallbacks_only_when_empty.
  apply Exists_cons_hd. reflexivity.
Defined.

Lemma first_candidate_wins_witness :
  "Luigi's" ∈
    Reviews.name <$>
      Reviews.businesses (Reviews.addAll Samples.candidates Reviews.nothing).
Proof.
  destruct (first_candidate_wins Samples.candidates) as (_ & H & _).
  apply (H (Samples.business "Luigi's" None)).
  - do 3 apply list_elem_of_further. apply list_elem_of_here.
  - reflexivity.
Defined.

Example sample_search :
  Reviews.address <$>
    Reviews.extractSearchResults Samples.candidates [] []
      [Samples.business "Fallback Diner" None] [] [] []
  = [None; None].
Proof. vm_compute. reflexivity. Qed.

Example sample_summary :
  let s := Reviews.calculateSummary Samples.reviews
             (Samples.business "Cafe" None) tt in
  (Reviews.responseRate s, Reviews.sentimentBreakdown s) =
    (Some 33%Z,
     {| Reviews.positive := Some 67%Z; Reviews.neutral := Some 0%Z;
        Reviews.negative := Some 33%Z |}).
Proof. vm_compute. reflexivity. Qed.

Example percent_of_23_in_40 : Number.percent 23 40 = Some 57%Z.
Proof. vm_compute. reflexivity. Qed.

Example valid_names :
  Reviews.isValidBusinessName <$>
    [ "Joe's Pizza"; "12345"; "x"; "True Value Hardware"; "https://a.b";
      "ChIJabc"; "a{b"; "deadbeefdeadbeefdeadbeef"; "4 U" ]
  = [ true; false; false; false; false; false; false; false; true ].
Proof. vm_compute. reflexivity. Qed.

Example sample_ids :
  (LinkedIn.extractProfileId "https://www.linkedin.com/in/john-doe/?x=1",
   LinkedIn.extractProfileId "https://www.linkedin.com/in//linkedin.com/in/abc?y",
   LinkedIn.extractProfileId "https://www.linkedin.com/company/acme",
   LinkedIn.extractProfileId "linkedin.com/in/")
  = (Some "john-doe", Some "abc", None, None).
Proof. vm_compute. reflexivity. Qed.

Example sample_runs :
  ProofIndeed.index <$>
    (ProofIndeed.collect Samples.parseInt
       (Jobs.scrapeIndeed Samples.fetch_forbidden Samples.same Samples.show
          Samples.parse25)
       Samples.midnight Samples.no_sleep Samples.as_text
       ["rust"; "Remote"; "3"] 0%nat).1
  = [0; 1; 2]%nat.
Proof. vm_compute. reflexivity. Qed.
